(** * Boundary domains of the one-dimensional solver, and the reactor base class

    A shallow embedding of [Cantera/src/oneD/Inlet1D.h] (the boundary objects
    [Bdry1D], [Inlet1D], [Empty1D], [Symm1D], [Outlet1D], [OutletRes1D],
    [Surf1D], [ReactingSurf1D]) and of [include/cantera/zeroD/ReactorBase.h]
    (the state accessors of [ReactorBase]).

    Inlet1D.h defines the data members, the constructors and the short
    member functions of the boundary classes; those are translated from it.
    It only declares [eval], [init], [save], [restore], [componentName] and
    the composition setters of [Inlet1D] and [OutletRes1D], and it includes
    Domain1D.h, StFlow.h, OneDim.h, SurfPhase.h and InterfaceKinetics.h,
    which are not at hand. What the theorems need of those is modelled from
    the specification, in definitions whose comment says so. The member
    functions that only print ([showSolution]) are left out.

    Conventions of the embedding:
    - [doublereal] / [double] is the type [R] of real numbers, without
      infinity and NaN; the arithmetic of the residuals and of the
      composition, which is modelled from the specification, is exact; a
      product the source computes ([ReactorBase::mass]) is the exact
      product rounded to a double, the rounding being a parameter;
    - [int] is [Z]; [size_t] is [N] below [2^64], and [k+2] on a [size_t]
      wraps around at [2^64];
    - [vector_fp] / [vector<double>] and the raw [doublereal*] buffers are
      [list R], read with [!!] and written with [<[ i := v ]>]; an access
      outside the buffer is undefined behaviour in C++ and is reported as
      [Undefined];
    - a member function is a function from the object before the call to
      the outcome of the call, the object after it and the events of the
      call; a C++ exception is the outcome [Throw];
    - a pointer to an object this code only reads ([StFlow*],
      [InterfaceKinetics*], [SurfPhase*]) is an [option] of what is read
      through it, the null pointer being [None]. *)

From Stdlib Require Import Reals Lra ZArith NArith Lia.
From stdpp Require Import base list strings.

Open Scope R_scope.

(** ** Outcomes of a call *)

(** [CanteraError(procedure, message)]. *)
Record CanteraError := mkCanteraError { procedure : string; message : string }.

(** A call returns, throws, or has no defined behaviour: an access outside
    a buffer or through a member that was never assigned and, in the parts
    modelled from the spec, a configuration for which the spec gives no
    equation. *)
Inductive outcome (A : Type) : Type :=
| Return (a : A)
| Throw (e : CanteraError)
| Undefined.
Arguments Return {A} a.
Arguments Throw {A} e.
Arguments Undefined {A}.

Definition obind {A B} (o : outcome A) (k : A -> outcome B) : outcome B :=
  match o with
  | Return a => k a
  | Throw e => Throw e
  | Undefined => Undefined
  end.

Declare Scope outcome_scope.
Delimit Scope outcome_scope with outcome.
Notation "x <- o ;; k" := (obind o (fun x => k))
  (at level 100, o at next level, right associativity) : outcome_scope.

(** [*p] for a pointer [p]. *)
Definition deref {A} (p : option A) : outcome A :=
  match p with
  | Some a => Return a
  | None => Undefined
  end.

(** What a call does to the world outside the object: a line given to
    [writelog], or a request to the container for a new Jacobian
    ([needJacUpdate()]). *)
Inductive event : Type :=
| Log (text : string)
| NeedJacUpdate.

(** A non-const member function of a class whose objects are [S]: the
    outcome, the object after the call, and the events of the call in
    order. *)
Definition method (S A : Type) : Type := S -> outcome A * S * list event.

Definition ret {S A} (a : A) : method S A := fun s => (Return a, s, []).

Definition throw {S A} (e : CanteraError) : method S A :=
  fun s => (Throw e, s, []).

Definition undefined {S A} : method S A := fun s => (Undefined, s, []).

Definition emit {S} (ev : event) : method S unit :=
  fun s => (Return tt, s, [ev]).

(** A body that only computes from what it is given. *)
Definition lift {S A} (o : outcome A) : method S A := fun s => (o, s, []).

(** An assignment to data members. *)
Definition modify {S} (f : S -> S) : method S unit :=
  fun s => (Return tt, f s, []).

(** Sequencing of statements: an exception or an undefined access ends the
    body at once, with the object as it was at that point. *)
Definition bind {S A B} (m : method S A) (k : A -> method S B) : method S B :=
  fun s =>
    match m s with
    | (Return a, s', evs) =>
        match k a s' with
        | (o, s'', evs') => (o, s'', evs ++ evs')
        end
    | (Throw e, s', evs) => (Throw e, s', evs)
    | (Undefined, s', evs) => (Undefined, s', evs)
    end.

Declare Scope method_scope.
Delimit Scope method_scope with method.
Notation "x <~ m ;; k" := (bind m (fun x => k))
  (at level 100, m at next level, right associativity) : method_scope.
Notation "m ;;; k" := (bind m (fun _ => k))
  (at level 100, right associativity) : method_scope.

(** [v[i]] on a [std::vector] or through a pointer: no bounds check. *)
Definition index {A} (v : list A) (i : nat) : outcome A :=
  match v !! i with
  | Some a => Return a
  | None => Undefined
  end.

(** ** [ReactorBase] (ReactorBase.h) *)

Module ReactorBase.

(** [size_t], 64 bits. *)
Definition size_t_modulus : N := (2 ^ 64)%N.

Definition size_t_add (a b : N) : N := ((a + b) mod size_t_modulus)%N.

(** The data members of the class. The objects behind the pointer members
    ([ThermoPhase*], [FlowDevice*], [WallBase*], [ReactorSurface*],
    [ReactorNet*]) are not read by the accessors below: a pointer is kept
    as the identity of its target, [None] for [nullptr]. *)
Record t := mk {
  m_nsp : N;
  m_thermo : option nat;
  m_vol : R;
  m_enthalpy : R;
  m_intEnergy : R;
  m_pressure : R;
  m_state : list R;
  m_inlet : list nat;
  m_outlet : list nat;
  m_wall : list nat;
  m_surfaces : list nat;
  m_lr : list Z;
  m_name : string;
  m_net : option nat
}.

(** The object the in-class initialisers give ([ReactorBase(name)]). *)
Definition create (name : string) : t :=
  {| m_nsp := 0%N; m_thermo := None; m_vol := 1; m_enthalpy := 0;
     m_intEnergy := 0; m_pressure := 0; m_state := []; m_inlet := [];
     m_outlet := []; m_wall := []; m_surfaces := []; m_lr := [];
     m_name := name; m_net := None |}.

Definition state_empty_error (proc : string) : CanteraError :=
  mkCanteraError proc "Reactor state empty and/or contents not defined.".

(** [m_state.empty()] *)
Definition empty (v : list R) : bool :=
  match v with [] => true | _ :: _ => false end.

(** [double density() const] *)
Definition density (r : t) : outcome R :=
  if empty (m_state r)
  then Throw (state_empty_error "ReactorBase::density")
  else index (m_state r) 1.

(** [double temperature() const] *)
Definition temperature (r : t) : outcome R :=
  if empty (m_state r)
  then Throw (state_empty_error "ReactorBase::temperature")
  else index (m_state r) 0.

(** [double mass() const]: [m_vol * density()], a product of doubles, that
    is the exact product rounded to a double by [rnd]. *)
Definition mass (rnd : R -> R) (r : t) : outcome R :=
  (rho <- density r ;; Return (rnd (m_vol r * rho)))%outcome.

(** [const double* massFractions() const]: the pointer [m_state.data() + 2]
    is the view of the state vector from its third component on. *)
Definition massFractions (r : t) : outcome (list R) :=
  if empty (m_state r)
  then Throw (state_empty_error "ReactorBase::massFractions")
  else Return (drop 2 (m_state r)).

(** [double massFraction(size_t k) const] *)
Definition massFraction (r : t) (k : N) : outcome R :=
  if empty (m_state r)
  then Throw (state_empty_error "ReactorBase::massFraction")
  else index (m_state r) (N.to_nat (size_t_add k 2)).

Definition set_m_vol (vol : R) (r : t) : t :=
  mk (m_nsp r) (m_thermo r) vol (m_enthalpy r) (m_intEnergy r) (m_pressure r)
     (m_state r) (m_inlet r) (m_outlet r) (m_wall r) (m_surfaces r) (m_lr r)
     (m_name r) (m_net r).

Definition set_m_name (name : string) (r : t) : t :=
  mk (m_nsp r) (m_thermo r) (m_vol r) (m_enthalpy r) (m_intEnergy r)
     (m_pressure r) (m_state r) (m_inlet r) (m_outlet r) (m_wall r)
     (m_surfaces r) (m_lr r) name (m_net r).

(** [string name() const] *)
Definition name (r : t) : string := m_name r.

(** [void setName(const string& name)] *)
Definition setName (name : string) : method t unit :=
  modify (set_m_name name).

(** [void setInitialVolume(double vol)] *)
Definition setInitialVolume (vol : R) : method t unit :=
  modify (set_m_vol vol).

(** [double volume() const] *)
Definition volume (r : t) : R := m_vol r.

(** [double enthalpy_mass() const], [double intEnergy_mass() const],
    [double pressure() const] *)
Definition enthalpy_mass (r : t) : R := m_enthalpy r.
Definition intEnergy_mass (r : t) : R := m_intEnergy r.
Definition pressure (r : t) : R := m_pressure r.

(** [size_t nInlets()], [size_t nOutlets()], [size_t nWalls()],
    [virtual size_t nSurfs()] *)
Definition nInlets (r : t) : nat := length (m_inlet r).
Definition nOutlets (r : t) : nat := length (m_outlet r).
Definition nWalls (r : t) : nat := length (m_wall r).
Definition nSurfs (r : t) : nat := length (m_surfaces r).

(** [ThermoPhase& contents()]: the phase behind [m_thermo]. *)
Definition contents (r : t) : outcome nat :=
  match m_thermo r with
  | None => Throw (mkCanteraError "ReactorBase::contents"
                     "Reactor contents not defined.")
  | Some ph => Return ph
  end.

End ReactorBase.

(** ** Buffers *)

(** [x[i] = v] through a pointer: no bounds check. *)
Definition assign (x : list R) (i : nat) (v : R) : outcome (list R) :=
  if decide (i < length x)%nat then Return (<[i:=v]> x) else Undefined.

(** [copy(first, first + n, out.begin())]: the [n] values from position
    [first] of [x] overwrite the first [n] components of [out]. *)
Definition copy_range (x : list R) (first : nat) (n : Z) (out : list R)
  : outcome (list R) :=
  if decide (0 <= n)%Z then
    let k := Z.to_nat n in
    if decide (first + k <= length x)%nat then
      if decide (k <= length out)%nat then
        Return (take k (drop first x) ++ drop k out)
      else Undefined
    else Undefined
  else Undefined.

(** ** Collaborators of the boundary objects *)

(** [const int LeftInlet = 1; const int RightInlet = -1;] *)
Definition LeftInlet : Z := 1%Z.
Definition RightInlet : Z := (-1)%Z.

(** Modelled from the spec: the flow domain [StFlow] (StFlow.h is not among
    the sources), as far as a boundary reads it. Section 6: the species
    count and the resolution of species names, here the mole ratios the
    phase of the flow reads from a composition string, one per species,
    [None] when the string names an unknown species; section 8: the molar
    masses that convert mole ratios to mass fractions; section 4.2: whether
    the flow uses the free mass-flux formulation. [c_offset_T] is the
    position of the temperature among the unknowns of a grid point of the
    flow. *)
Module StFlow.
Record t := mk {
  nSpecies : nat;
  molecularWeights : list R;
  moleRatios : string -> option (list R);
  free_mass_flux : bool;
  c_offset_T : nat
}.
End StFlow.

(** Modelled from the spec: the resolution of a composition to mass
    fractions, done by the phase of the attached flow (not among the
    sources). Section 8: mole ratios are converted to mass fractions using
    the molar masses, [Y_k = X_k M_k / sum_j X_j M_j], and mass fractions
    given by array are read back as they were given. Sections 4.2 and 7: a
    composition whose fractions are all zero or negative, or sum to zero,
    is a configuration error, as is a string that names an unknown species.
    The text of the error is not given by the spec. *)
Module Composition.

Fixpoint dot (X M : list R) : R :=
  match X, M with
  | x :: X', m :: M' => x * m + dot X' M'
  | _, _ => 0
  end.

Definition massFractions (M X : list R) : list R :=
  zip_with (fun x m => x * m / dot X M) X M.

(** The sum of fractions. *)
Definition total (Y : list R) : R := foldr Rplus 0 Y.

Fixpoint all_nonpositive (X : list R) : bool :=
  match X with
  | [] => true
  | x :: X' => if Rle_dec x 0 then all_nonpositive X' else false
  end.

(** Fractions that are a configuration error: all zero or negative, or
    summing to zero. *)
Definition invalid (X : list R) : bool :=
  if all_nonpositive X then true
  else if Req_dec_T (total X) 0 then true else false.

Definition configuration_error (proc : string) : CanteraError :=
  mkCanteraError proc "configuration error".

(** The mass fractions for the mole ratios [X], given for the [nsp]
    species of the flow [f]. *)
Definition resolve (proc : string) (f : StFlow.t) (X : list R)
  : outcome (list R) :=
  if decide (StFlow.nSpecies f <= length X)%nat then
    let X' := take (StFlow.nSpecies f) X in
    if invalid X'
    then Throw (configuration_error proc)
    else Return (massFractions (StFlow.molecularWeights f) X')
  else Undefined.

(** The mass fractions given by the array [Y], one for each of the [nsp]
    species of the flow [f]: they are kept as they are. *)
Definition of_array (proc : string) (f : StFlow.t) (Y : list R)
  : outcome (list R) :=
  if decide (StFlow.nSpecies f <= length Y)%nat then
    let Y' := take (StFlow.nSpecies f) Y in
    if invalid Y'
    then Throw (configuration_error proc)
    else Return Y'
  else Undefined.

Definition resolve_string (proc : string) (f : StFlow.t) (xin : string)
  : outcome (list R) :=
  match StFlow.moleRatios f xin with
  | Some X => resolve proc f X
  | None => Throw (configuration_error proc)
  end.

End Composition.

(** Modelled from the spec: the surface phase behind [SurfPhase*]
    (SurfPhase.h is not among the sources): its species count and its
    current coverages. *)
Module SurfPhase.
Record t := mk {
  nSpecies : Z;
  getCoverages : list R
}.
End SurfPhase.

(** Modelled from the spec: the surface-kinetics evaluator behind
    [InterfaceKinetics*] (InterfaceKinetics.h is not among the sources).
    Section 6: given coverages and temperature it returns the net production
    rates of the surface species, and it exposes the index of the surface
    phase among its phases and that phase's species count. *)
Module InterfaceKinetics.
Record t := mk {
  surfacePhaseIndex : Z;
  phases : list SurfPhase.t;
  netProductionRates : list R -> R -> list R
}.

(** [thermo(n)]: the [n]-th phase, no bounds check. *)
Definition thermo (kin : t) (n : Z) : outcome SurfPhase.t :=
  if decide (0 <= n)%Z then index (phases kin) (Z.to_nat n) else Undefined.
End InterfaceKinetics.

(** Modelled from the spec: the base class [Domain1D] (Domain1D.h is not
    among the sources). Section 3: the number of variables per grid point,
    the number of grid points, the offset of the domain in the global
    vector, the type tag and the two neighbours, here positions in the
    chain. The tags are the constants the constructors of Inlet1D.h assign
    to [m_type], and [cFlowType] for the flow domain. *)
Module Domain1D.
Inductive type_tag :=
| cFlowType | cInletType | cEmptyType | cSymmType
| cOutletType | cOutletResType | cSurfType.

Record t := mk {
  m_type : type_tag;
  nComponents : nat;
  nPoints : nat;
  loc : nat;
  left : option nat;
  right : option nat
}.

(** The number of unknowns of the domain, [nv * np]. *)
Definition size (d : t) : nat := (nComponents d * nPoints d)%nat.

Definition set_loc (o : nat) (d : t) : t :=
  mk (m_type d) (nComponents d) (nPoints d) o (left d) (right d).

Definition set_neighbours (l r : option nat) (d : t) : t :=
  mk (m_type d) (nComponents d) (nPoints d) (loc d) l r.

Definition set_type (ty : type_tag) (d : t) : t :=
  mk ty (nComponents d) (nPoints d) (loc d) (left d) (right d).

(** Section 2: local variable [j] at grid point [i] is at the offset plus
    [i*nv + j]. *)
Definition index (d : t) (j i : nat) : nat :=
  (loc d + (i * nComponents d + j))%nat.

(** Does the domain own position [g] of the global vector? *)
Definition owns (d : t) (g : nat) : bool :=
  bool_decide (loc d <= g < loc d + size d)%nat.
End Domain1D.

(** ** [Bdry1D] *)

Module Bdry1D.

(** The base-class part and the protected data members. [StFlow*] is
    [None] for the null pointer; the two [ThermoPhase*] are kept as the
    identity of their target. *)
Record t := mk {
  domain : Domain1D.t;
  m_flow_left : option StFlow.t;
  m_flow_right : option StFlow.t;
  m_ilr : Z;
  m_left_nv : Z;
  m_right_nv : Z;
  m_left_loc : Z;
  m_right_loc : Z;
  m_left_points : Z;
  m_nv : Z;
  m_left_nsp : Z;
  m_right_nsp : Z;
  m_sp_left : Z;
  m_sp_right : Z;
  m_start_left : Z;
  m_start_right : Z;
  m_phase_left : option nat;
  m_phase_right : option nat;
  m_temp : R;
  m_mdot : R
}.

Definition set_domain (d : Domain1D.t) (b : t) : t :=
  mk d (m_flow_left b) (m_flow_right b) (m_ilr b) (m_left_nv b)
     (m_right_nv b) (m_left_loc b) (m_right_loc b) (m_left_points b)
     (m_nv b) (m_left_nsp b) (m_right_nsp b) (m_sp_left b) (m_sp_right b)
     (m_start_left b) (m_start_right b) (m_phase_left b) (m_phase_right b)
     (m_temp b) (m_mdot b).

Definition set_m_temp (v : R) (b : t) : t :=
  mk (domain b) (m_flow_left b) (m_flow_right b) (m_ilr b) (m_left_nv b)
     (m_right_nv b) (m_left_loc b) (m_right_loc b) (m_left_points b)
     (m_nv b) (m_left_nsp b) (m_right_nsp b) (m_sp_left b) (m_sp_right b)
     (m_start_left b) (m_start_right b) (m_phase_left b) (m_phase_right b)
     v (m_mdot b).

Definition set_m_mdot (v : R) (b : t) : t :=
  mk (domain b) (m_flow_left b) (m_flow_right b) (m_ilr b) (m_left_nv b)
     (m_right_nv b) (m_left_loc b) (m_right_loc b) (m_left_points b)
     (m_nv b) (m_left_nsp b) (m_right_nsp b) (m_sp_left b) (m_sp_right b)
     (m_start_left b) (m_start_right b) (m_phase_left b) (m_phase_right b)
     (m_temp b) v.

(** A class derived from [Bdry1D]: its objects contain a [Bdry1D]. *)
Class Derived (S : Type) := {
  base : S -> t;
  set_base : t -> S -> S
}.

#[global] Instance itself : Derived t := {| base b := b; set_base b _ := b |}.

(** The exception of [err]:
    [CanteraError("Bdry1D::"+method,
                  "attempt to call base class method "+method)]. *)
Definition base_class_error (name : string) : CanteraError :=
  mkCanteraError ("Bdry1D::" +:+ name)
    ("attempt to call base class method " +:+ name).

Section Methods.
Context {S : Type} `{Derived S}.

(** [void err(string method)] *)
Definition err (name : string) : method S unit :=
  throw (base_class_error name).

(** [virtual void setTemperature(doublereal t)] *)
Definition setTemperature (t : R) : method S unit :=
  modify (fun s => set_base (set_m_temp t (base s)) s).

(** [virtual doublereal temperature()] *)
Definition temperature : method S R :=
  fun s => ret (m_temp (base s)) s.

(** [virtual void setMoleFractions(string xin)] *)
Definition setMoleFractions (xin : string) : method S unit :=
  err "setMoleFractions".

(** [virtual void setMoleFractions(doublereal* xin)] *)
Definition setMoleFractions_array (xin : list R) : method S unit :=
  err "setMoleFractions".

(** [virtual doublereal massFraction(int k)] *)
Definition massFraction (k : Z) : method S R :=
  (err "massFraction" ;;; ret 0)%method.

(** [virtual void setMdot(doublereal mdot)] *)
Definition setMdot (mdot : R) : method S unit :=
  modify (fun s => set_base (set_m_mdot mdot (base s)) s).

(** [virtual doublereal mdot()] *)
Definition mdot : method S R :=
  fun s => ret (m_mdot (base s)) s.

(** [virtual void _getInitialSoln(doublereal* x)]: the buffer is left as
    it is and a line is logged. *)
Definition _getInitialSoln (x : list R) : method S (list R) :=
  (emit (Log ("Bdry1D::_getInitialSoln called!"
              +:+ String (Ascii.ascii_of_nat 10) EmptyString)) ;;;
   ret x)%method.
End Methods.

(** The offset of the domain and the number of its unknowns. *)
Definition loc (b : t) : nat := Domain1D.loc (domain b).
Definition size (b : t) : nat := Domain1D.size (domain b).

(** Modelled from the spec: the reading of a neighbour's values, whose
    code (boundaries1D.cpp) is not among the sources. Section 4.1: the
    values of the left neighbour's last point start at
    [own_offset - left_nv] of the global vector, those of the right
    neighbour's first point at [own_offset + own_nv*own_np]. *)
Definition left_value (b : t) (xg : list R) (j : nat) : outcome R :=
  let i := (Z.of_nat (loc b) - m_left_nv b + Z.of_nat j)%Z in
  if decide (0 <= i)%Z then index xg (Z.to_nat i) else Undefined.

Definition right_value (b : t) (xg : list R) (j : nat) : outcome R :=
  index xg (loc b + size b + j).

(** Modelled from the spec: the temperature of the attached flow at its
    point nearest to the boundary (section 3: a boundary is attached to at
    most one flow, the neighbour that is a flow). *)
Definition flow_temperature (b : t) (xg : list R) : outcome R :=
  match m_flow_left b, m_flow_right b with
  | Some f, None => left_value b xg (StFlow.c_offset_T f)
  | None, Some f => right_value b xg (StFlow.c_offset_T f)
  | _, _ => Undefined
  end.

(** Modelled from the spec: the residual of a boundary whose only unknown
    is a temperature with zero gradient against the attached flow
    (sections 4.3 and 4.4; boundaries1D.cpp is not among the sources). The
    row is algebraic: the reciprocal time step is not used. *)
Definition eval_zero_gradient (b : t) (xg rg : list R) (rdt : R)
  : outcome (list R) :=
  (x0 <- index xg (loc b) ;;
   T <- flow_temperature b xg ;;
   assign rg (loc b) (x0 - T))%outcome.

(** Modelled from the spec: the residual of a boundary whose only unknown
    is a temperature held at the specified value (section 4.6). *)
Definition eval_dirichlet (b : t) (xg rg : list R) (rdt : R)
  : outcome (list R) :=
  (x0 <- index xg (loc b) ;;
   assign rg (loc b) (x0 - m_temp b))%outcome.

End Bdry1D.

(** ** [Inlet1D] *)

Module Inlet1D.

(** [m_ilr] is declared again in the derived class and hides the member
    of [Bdry1D]. *)
Record t := mk {
  bdry : Bdry1D.t;
  m_ilr : Z;
  m_V0 : R;
  m_nsp : Z;
  m_yin : list R;
  m_xstr : string;
  m_flow : option StFlow.t
}.

#[global] Instance derived : Bdry1D.Derived t :=
  {| Bdry1D.base := bdry;
     Bdry1D.set_base b i :=
       mk b (m_ilr i) (m_V0 i) (m_nsp i) (m_yin i) (m_xstr i) (m_flow i) |}.

Definition set_m_V0 (v : R) (i : t) : t :=
  mk (bdry i) (m_ilr i) v (m_nsp i) (m_yin i) (m_xstr i) (m_flow i).

Definition set_m_yin (y : list R) (i : t) : t :=
  mk (bdry i) (m_ilr i) (m_V0 i) (m_nsp i) y (m_xstr i) (m_flow i).

Definition set_m_xstr (x : string) (i : t) : t :=
  mk (bdry i) (m_ilr i) (m_V0 i) (m_nsp i) (m_yin i) x (m_flow i).

(** [Inlet1D() : Bdry1D(), m_V0(0.0), m_nsp(0), m_flow(0)], from the
    object [b] the constructor of the base class gives and the value
    [ilr] the member [m_ilr], which the constructor does not set,
    happens to hold. *)
Definition create (b : Bdry1D.t) (ilr : Z) : t :=
  mk (Bdry1D.set_domain
        (Domain1D.set_type Domain1D.cInletType (Bdry1D.domain b)) b)
     ilr 0 0%Z [] "" None.

(** [virtual void setSpreadRate(doublereal V0)] *)
Definition setSpreadRate (V0 : R) : method t unit :=
  (modify (set_m_V0 V0) ;;; emit NeedJacUpdate)%method.

(** [virtual double spreadRate()] *)
Definition spreadRate : method t R := fun i => ret (m_V0 i) i.

(** [virtual void _getInitialSoln(doublereal* x)] *)
Definition _getInitialSoln (i : t) (x : list R) : outcome (list R) :=
  (x1 <- assign x 0 (Bdry1D.m_mdot (bdry i)) ;;
   assign x1 1 (Bdry1D.m_temp (bdry i)))%outcome.

(** [virtual void _finalize(const doublereal* x) {}] *)
Definition _finalize (x : list R) : method t unit := ret tt.

(** [virtual doublereal massFraction(int k) {return m_yin[k];}] *)
Definition massFraction (k : Z) : method t R :=
  fun i =>
    lift (if decide (0 <= k)%Z then index (m_yin i) (Z.to_nat k)
          else Undefined) i.

(** Modelled from the spec: [Inlet1D::setMoleFractions(string)], declared
    here and defined in boundaries1D.cpp, which is not among the sources.
    Section 3: the inlet stores the resolved mass fractions when the
    input is a mole-fraction specification string; the string itself is
    kept in [m_xstr]. For an inlet that is not attached to a flow the
    spec gives no behaviour. *)
Definition setMoleFractions (xin : string) : method t unit :=
  fun i =>
    (f <~ lift (deref (m_flow i)) ;;
     y <~ lift (Composition.resolve_string
                  "Inlet1D::setMoleFractions" f xin) ;;
     modify (set_m_xstr xin) ;;;
     modify (set_m_yin y))%method i.

(** Modelled from the spec: the setter of the composition by array,
    [Inlet1D::setMoleFractions(doublereal* xin)], declared here and defined
    in boundaries1D.cpp, which is not among the sources. Section 8: the
    array holds the mass fractions, one per species, and they are read back
    as they were set; section 3: the inlet stores them in its mass-fraction
    array. *)
Definition setMoleFractions_array (xin : list R) : method t unit :=
  fun i =>
    (f <~ lift (deref (m_flow i)) ;;
     y <~ lift (Composition.of_array "Inlet1D::setMoleFractions" f xin) ;;
     modify (set_m_yin y))%method i.

(** Modelled from the spec: the temperature of the attached flow at its
    point nearest to the inlet. Section 3: the inlet faces right
    ([LeftInlet]) when the flow is its right neighbour and left
    ([RightInlet]) when the flow is its left neighbour. *)
Definition flow_temperature (i : t) (xg : list R) : outcome R :=
  (f <- deref (m_flow i) ;;
   if decide (m_ilr i = LeftInlet)
   then Bdry1D.right_value (bdry i) xg (StFlow.c_offset_T f)
   else if decide (m_ilr i = RightInlet)
   then Bdry1D.left_value (bdry i) xg (StFlow.c_offset_T f)
   else Undefined)%outcome.

(** Modelled from the spec: [Inlet1D::eval], declared here and defined in
    boundaries1D.cpp, which is not among the sources. Section 4.2: the
    two slots of the inlet hold the mass flow rate and the temperature;
    the first residual is (trial mdot - specified mdot); the second is
    (trial T - specified T) for an unconstrained inlet (no spreading
    rate, attached flow in the free mass-flux formulation) and, when the
    spreading rate is not zero, the zero gradient between the inlet and
    the first interior point of the attached flow. No equation is given
    for an inlet without spreading rate on a flow that is not in the free
    mass-flux formulation. Section 4.8: both rows are algebraic and do
    not use the reciprocal time step [rdt]. *)
Definition eval (i : t) (xg rg : list R) (rdt : R) : outcome (list R) :=
  let loc := Bdry1D.loc (bdry i) in
  (x0 <- index xg loc ;;
   x1 <- index xg (loc + 1) ;;
   f <- deref (m_flow i) ;;
   rT <- (if Req_dec_T (m_V0 i) 0
          then if StFlow.free_mass_flux f
               then Return (x1 - Bdry1D.m_temp (bdry i))
               else Undefined
          else T <- flow_temperature i xg ;; Return (x1 - T)) ;;
   r1 <- assign rg loc (x0 - Bdry1D.m_mdot (bdry i)) ;;
   assign r1 (loc + 1) rT)%outcome.

End Inlet1D.

(** ** [Empty1D]

    A terminator that does nothing: a [Domain1D] with the tag
    [cEmptyType]. *)

Module Empty1D.
Definition create (d : Domain1D.t) : Domain1D.t :=
  Domain1D.set_type Domain1D.cEmptyType d.

(** [virtual void _finalize(const doublereal* x) {}] *)
Definition _finalize (x : list R) : method Domain1D.t unit := ret tt.

(** [virtual void _getInitialSoln(doublereal* x) { x[0] = 0.0; }] *)
Definition _getInitialSoln (d : Domain1D.t) (x : list R) : outcome (list R) :=
  assign x 0 0.
End Empty1D.

(** ** [Symm1D], [Outlet1D], [Surf1D]

    These classes add no data member to [Bdry1D]; their constructors set
    the type tag. *)

Module Symm1D.
Definition create (b : Bdry1D.t) : Bdry1D.t :=
  Bdry1D.set_domain
    (Domain1D.set_type Domain1D.cSymmType (Bdry1D.domain b)) b.

(** [virtual void _finalize(const doublereal* x) { ; //m_temp = x[0]; }] *)
Definition _finalize (x : list R) : method Bdry1D.t unit := ret tt.

(** [virtual void _getInitialSoln(doublereal* x) { x[0] = m_temp; }] *)
Definition _getInitialSoln (b : Bdry1D.t) (x : list R) : outcome (list R) :=
  assign x 0 (Bdry1D.m_temp b).

(** Modelled from the spec: [Symm1D::eval] (section 4.3), defined in
    boundaries1D.cpp, which is not among the sources. *)
Definition eval : Bdry1D.t -> list R -> list R -> R -> outcome (list R) :=
  Bdry1D.eval_zero_gradient.
End Symm1D.

Module Outlet1D.
Definition create (b : Bdry1D.t) : Bdry1D.t :=
  Bdry1D.set_domain
    (Domain1D.set_type Domain1D.cOutletType (Bdry1D.domain b)) b.

(** [virtual void _finalize(const doublereal* x) { ; //m_temp = x[0]; }] *)
Definition _finalize (x : list R) : method Bdry1D.t unit := ret tt.

(** [virtual void _getInitialSoln(doublereal* x) { x[0] = m_temp; }] *)
Definition _getInitialSoln (b : Bdry1D.t) (x : list R) : outcome (list R) :=
  assign x 0 (Bdry1D.m_temp b).

(** Modelled from the spec: [Outlet1D::eval] (section 4.4), defined in
    boundaries1D.cpp, which is not among the sources. *)
Definition eval : Bdry1D.t -> list R -> list R -> R -> outcome (list R) :=
  Bdry1D.eval_zero_gradient.
End Outlet1D.

Module Surf1D.
Definition create (b : Bdry1D.t) : Bdry1D.t :=
  Bdry1D.set_domain
    (Domain1D.set_type Domain1D.cSurfType (Bdry1D.domain b)) b.

(** [virtual void _finalize(const doublereal* x) { ; //m_temp = x[0]; }] *)
Definition _finalize (x : list R) : method Bdry1D.t unit := ret tt.

(** [virtual void _getInitialSoln(doublereal* x) { x[0] = m_temp; }] *)
Definition _getInitialSoln (b : Bdry1D.t) (x : list R) : outcome (list R) :=
  assign x 0 (Bdry1D.m_temp b).

(** Modelled from the spec: [Surf1D::eval] (section 4.6), defined in
    boundaries1D.cpp, which is not among the sources. *)
Definition eval : Bdry1D.t -> list R -> list R -> R -> outcome (list R) :=
  Bdry1D.eval_dirichlet.
End Surf1D.

(** ** [OutletRes1D] *)

Module OutletRes1D.

Record t := mk {
  bdry : Bdry1D.t;
  m_nsp : Z;
  m_yres : list R;
  m_xstr : string;
  m_flow : option StFlow.t
}.

#[global] Instance derived : Bdry1D.Derived t :=
  {| Bdry1D.base := bdry;
     Bdry1D.set_base b o := mk b (m_nsp o) (m_yres o) (m_xstr o) (m_flow o) |}.

Definition set_m_yres (y : list R) (o : t) : t :=
  mk (bdry o) (m_nsp o) y (m_xstr o) (m_flow o).

Definition set_m_xstr (x : string) (o : t) : t :=
  mk (bdry o) (m_nsp o) (m_yres o) x (m_flow o).

(** [OutletRes1D() : Bdry1D(), m_nsp(0), m_flow(0)] *)
Definition create (b : Bdry1D.t) : t :=
  mk (Bdry1D.set_domain
        (Domain1D.set_type Domain1D.cOutletResType (Bdry1D.domain b)) b)
     0%Z [] "" None.

(** [virtual void _getInitialSoln(doublereal* x) { x[0] = m_temp; }] *)
Definition _getInitialSoln (o : t) (x : list R) : outcome (list R) :=
  assign x 0 (Bdry1D.m_temp (bdry o)).

(** [virtual void _finalize(const doublereal* x) { ; }] *)
Definition _finalize (x : list R) : method t unit := ret tt.

(** [virtual doublereal massFraction(int k) {return m_yres[k];}] *)
Definition massFraction (k : Z) : method t R :=
  fun o =>
    lift (if decide (0 <= k)%Z then index (m_yres o) (Z.to_nat k)
          else Undefined) o.

(** Modelled from the spec: [OutletRes1D::setMoleFractions], both
    overloads, as for the inlet (section 3). *)
Definition setMoleFractions (xin : string) : method t unit :=
  fun o =>
    (f <~ lift (deref (m_flow o)) ;;
     y <~ lift (Composition.resolve_string
                  "OutletRes1D::setMoleFractions" f xin) ;;
     modify (set_m_xstr xin) ;;;
     modify (set_m_yres y))%method o.

Definition setMoleFractions_array (xin : list R) : method t unit :=
  fun o =>
    (f <~ lift (deref (m_flow o)) ;;
     y <~ lift (Composition.of_array "OutletRes1D::setMoleFractions" f xin) ;;
     modify (set_m_yres y))%method o.

(** Modelled from the spec: [OutletRes1D::eval] (section 4.5: the
    temperature is treated as for the simple outlet), defined in
    boundaries1D.cpp, which is not among the sources. *)
Definition eval (o : t) : list R -> list R -> R -> outcome (list R) :=
  Bdry1D.eval_zero_gradient (bdry o).

End OutletRes1D.

(** ** [ReactingSurf1D] *)

Module ReactingSurf1D.

(** The constructor initialises [m_kin], [m_surfindex] and [m_nsp] only:
    [m_sphase] and [m_enabled] hold no value ([None]) until they are
    assigned. The member [dum] is never used. *)
Record t := mk {
  bdry : Bdry1D.t;
  m_kin : option InterfaceKinetics.t;
  m_sphase : option SurfPhase.t;
  m_surfindex : Z;
  m_nsp : Z;
  m_enabled : option bool;
  m_work : list R;
  m_fixed_cov : list R
}.

#[global] Instance derived : Bdry1D.Derived t :=
  {| Bdry1D.base := bdry;
     Bdry1D.set_base b s :=
       mk b (m_kin s) (m_sphase s) (m_surfindex s) (m_nsp s) (m_enabled s)
          (m_work s) (m_fixed_cov s) |}.

Definition set_m_kin (k : option InterfaceKinetics.t) (s : t) : t :=
  mk (bdry s) k (m_sphase s) (m_surfindex s) (m_nsp s) (m_enabled s)
     (m_work s) (m_fixed_cov s).

Definition set_m_sphase (p : option SurfPhase.t) (s : t) : t :=
  mk (bdry s) (m_kin s) p (m_surfindex s) (m_nsp s) (m_enabled s)
     (m_work s) (m_fixed_cov s).

Definition set_m_surfindex (n : Z) (s : t) : t :=
  mk (bdry s) (m_kin s) (m_sphase s) n (m_nsp s) (m_enabled s)
     (m_work s) (m_fixed_cov s).

Definition set_m_nsp (n : Z) (s : t) : t :=
  mk (bdry s) (m_kin s) (m_sphase s) (m_surfindex s) n (m_enabled s)
     (m_work s) (m_fixed_cov s).

Definition set_m_enabled (e : option bool) (s : t) : t :=
  mk (bdry s) (m_kin s) (m_sphase s) (m_surfindex s) (m_nsp s) e
     (m_work s) (m_fixed_cov s).

Definition set_m_fixed_cov (c : list R) (s : t) : t :=
  mk (bdry s) (m_kin s) (m_sphase s) (m_surfindex s) (m_nsp s) (m_enabled s)
     (m_work s) c.

(** [ReactingSurf1D() : Bdry1D(), m_kin(0), m_surfindex(0), m_nsp(0)];
    the tag is [cSurfType], as for [Surf1D]. *)
Definition create (b : Bdry1D.t) : t :=
  mk (Bdry1D.set_domain
        (Domain1D.set_type Domain1D.cSurfType (Bdry1D.domain b)) b)
     None None 0%Z 0%Z None [] [].

(** [void setKineticsMgr(InterfaceKinetics* kin)], for a pointer [kin] to
    an evaluator. *)
Definition setKineticsMgr (kin : InterfaceKinetics.t) : method t unit :=
  (modify (set_m_kin (Some kin)) ;;;
   modify (set_m_surfindex (InterfaceKinetics.surfacePhaseIndex kin)) ;;;
   s <~ (fun s => ret s s) ;;
   match InterfaceKinetics.thermo kin (m_surfindex s) with
   | Return ph =>
       modify (set_m_sphase (Some ph)) ;;;
       modify (set_m_nsp (SurfPhase.nSpecies ph)) ;;;
       modify (set_m_enabled (Some true))
   | Throw e => throw e
   | Undefined => undefined
   end)%method.

(** [void enableCoverageEquations(bool docov) { m_enabled = docov; }] *)
Definition enableCoverageEquations (docov : bool) : method t unit :=
  modify (set_m_enabled (Some docov)).

(** [virtual void _getInitialSoln(doublereal* x)]:
    [x[0] = m_temp; m_sphase->getCoverages(x+1);] *)
Definition _getInitialSoln (s : t) (x : list R) : outcome (list R) :=
  (x1 <- assign x 0 (Bdry1D.m_temp (bdry s)) ;;
   ph <- deref (m_sphase s) ;;
   let cov := SurfPhase.getCoverages ph in
   if decide (1 + length cov <= length x1)%nat
   then Return (take 1 x1 ++ cov ++ drop (1 + length cov) x1)
   else Undefined)%outcome.

(** [virtual void _finalize(const doublereal* x)]:
    [copy(x+1, x+1+m_nsp, m_fixed_cov.begin());] *)
Definition _finalize (x : list R) : method t unit :=
  fun s =>
    (c <~ lift (copy_range x 1 (m_nsp s) (m_fixed_cov s)) ;;
     modify (set_m_fixed_cov c))%method s.

(** Modelled from the spec: [ReactingSurf1D::eval], declared here and
    defined in boundaries1D.cpp, which is not among the sources.

    Section 4.7: the first slot holds the temperature, with the residual
    (trial T - specified T); slot [k+1] holds the coverage of surface
    species [k]. With the coverage equations enabled its steady residual
    is the net production rate of species [k] that the evaluator gives at
    the trial coverages and the trial temperature; with the equations
    disabled it is (trial coverage[k] - fixed coverage[k]). *)
Definition coverage_row (s : t) (xg : list R) (en : bool) (sdot : list R)
    (k : nat) : outcome R :=
  if en then index sdot k
  else (x <- index xg (Bdry1D.loc (bdry s) + 1 + k) ;;
        c <- index (m_fixed_cov s) k ;;
        Return (x - c))%outcome.

(** [for (k = 0; k < m_nsp; k++) r[k+1] = row(k);], from [k] on with [n]
    rows left. *)
Fixpoint rows (row : nat -> outcome R) (loc k n : nat) (rg : list R)
  : outcome (list R) :=
  match n with
  | O => Return rg
  | S n' =>
      (v <- row k ;;
       rg' <- assign rg (loc + 1 + k) v ;;
       rows row loc (S k) n' rg')%outcome
  end.

Definition steady_residual (s : t) (xg rg : list R) : outcome (list R) :=
  let loc := Bdry1D.loc (bdry s) in
  (x0 <- index xg loc ;;
   r0 <- assign rg loc (x0 - Bdry1D.m_temp (bdry s)) ;;
   en <- deref (m_enabled s) ;;
   if decide (0 <= m_nsp s)%Z then
     let n := Z.to_nat (m_nsp s) in
     sdot <- (if en
              then kin <- deref (m_kin s) ;;
                   Return (InterfaceKinetics.netProductionRates kin
                             (take n (drop (loc + 1) xg)) x0)
              else Return []) ;;
     rows (coverage_row s xg en sdot) loc 0 n r0
   else Undefined)%outcome.

(** Section 4.8: a row of a differential unknown, here an enabled
    coverage equation, gets the backward-Euler term,
    [residual[k] -= rdt * (trial[k] - previous_accepted[k])], where
    [xprev] is the last accepted solution. *)
Definition damped_row (loc : nat) (xprev xg rg : list R) (rdt : R)
    (k : nat) : outcome R :=
  (r <- index rg (loc + 1 + k) ;;
   x <- index xg (loc + 1 + k) ;;
   p <- index xprev (loc + 1 + k) ;;
   Return (r - rdt * (x - p)))%outcome.

Definition eval (s : t) (xprev xg rg : list R) (rdt : R)
  : outcome (list R) :=
  let loc := Bdry1D.loc (bdry s) in
  (r <- steady_residual s xg rg ;;
   en <- deref (m_enabled s) ;;
   if en
   then rows (damped_row loc xprev xg r rdt) loc 0 (Z.to_nat (m_nsp s)) r
   else Return r)%outcome.

End ReactingSurf1D.

(** ** The boundary objects behind a [Bdry1D*]: virtual dispatch *)

Inductive Boundary : Type :=
| Inlet (i : Inlet1D.t)
| Symm (b : Bdry1D.t)
| Outlet (b : Bdry1D.t)
| OutletRes (o : OutletRes1D.t)
| Surf (b : Bdry1D.t)
| ReactingSurf (s : ReactingSurf1D.t).

Module Boundary.

#[global] Instance derived : Bdry1D.Derived Boundary :=
  {| Bdry1D.base d :=
       match d with
       | Inlet i => Bdry1D.base i
       | Symm b | Outlet b | Surf b => b
       | OutletRes o => Bdry1D.base o
       | ReactingSurf s => Bdry1D.base s
       end;
     Bdry1D.set_base b d :=
       match d with
       | Inlet i => Inlet (Bdry1D.set_base b i)
       | Symm _ => Symm b
       | Outlet _ => Outlet b
       | Surf _ => Surf b
       | OutletRes o => OutletRes (Bdry1D.set_base b o)
       | ReactingSurf s => ReactingSurf (Bdry1D.set_base b s)
       end |}.

(** A member function of a derived class, called on the object. *)
Definition on {X A} (inj : X -> Boundary) (m : method X A) (x : X)
  : outcome A * Boundary * list event :=
  match m x with
  | (o, x', evs) => (o, inj x', evs)
  end.

(** [setMoleFractions(string)]: overridden by [Inlet1D] and
    [OutletRes1D] only. *)
Definition setMoleFractions (xin : string) : method Boundary unit :=
  fun d =>
    match d with
    | Inlet i => on Inlet (Inlet1D.setMoleFractions xin) i
    | OutletRes o => on OutletRes (OutletRes1D.setMoleFractions xin) o
    | Symm _ | Outlet _ | Surf _ | ReactingSurf _ =>
        Bdry1D.setMoleFractions xin d
    end.

(** [setMoleFractions(doublereal* )] *)
Definition setMoleFractions_array (xin : list R) : method Boundary unit :=
  fun d =>
    match d with
    | Inlet i => on Inlet (Inlet1D.setMoleFractions_array xin) i
    | OutletRes o => on OutletRes (OutletRes1D.setMoleFractions_array xin) o
    | Symm _ | Outlet _ | Surf _ | ReactingSurf _ =>
        Bdry1D.setMoleFractions_array xin d
    end.

(** [massFraction(int)] *)
Definition massFraction (k : Z) : method Boundary R :=
  fun d =>
    match d with
    | Inlet i => on Inlet (Inlet1D.massFraction k) i
    | OutletRes o => on OutletRes (OutletRes1D.massFraction k) o
    | Symm _ | Outlet _ | Surf _ | ReactingSurf _ =>
        Bdry1D.massFraction k d
    end.

(** [_finalize(const doublereal* )]: overridden by every class. *)
Definition _finalize (x : list R) : method Boundary unit :=
  fun d =>
    match d with
    | Inlet i => on Inlet (Inlet1D._finalize x) i
    | Symm b => on Symm (Symm1D._finalize x) b
    | Outlet b => on Outlet (Outlet1D._finalize x) b
    | OutletRes o => on OutletRes (OutletRes1D._finalize x) o
    | Surf b => on Surf (Surf1D._finalize x) b
    | ReactingSurf s => on ReactingSurf (ReactingSurf1D._finalize x) s
    end.

(** [_getInitialSoln(doublereal* )]: overridden by every class. *)
Definition _getInitialSoln (d : Boundary) (x : list R) : outcome (list R) :=
  match d with
  | Inlet i => Inlet1D._getInitialSoln i x
  | Symm b => Symm1D._getInitialSoln b x
  | Outlet b => Outlet1D._getInitialSoln b x
  | OutletRes o => OutletRes1D._getInitialSoln o x
  | Surf b => Surf1D._getInitialSoln b x
  | ReactingSurf s => ReactingSurf1D._getInitialSoln s x
  end.

(** Modelled from the spec: [eval] (section 3: read-only on the domain,
    it writes the residual buffer), for the trial vector [xg], the
    residual buffer [rg], the reciprocal time step [rdt] and the last
    accepted solution [xprev]. *)
Definition eval (d : Boundary) (xprev xg rg : list R) (rdt : R)
  : outcome (list R) :=
  match d with
  | Inlet i => Inlet1D.eval i xg rg rdt
  | Symm b => Symm1D.eval b xg rg rdt
  | Outlet b => Outlet1D.eval b xg rg rdt
  | OutletRes o => OutletRes1D.eval o xg rg rdt
  | Surf b => Surf1D.eval b xg rg rdt
  | ReactingSurf s => ReactingSurf1D.eval s xprev xg rg rdt
  end.

(** Modelled from the spec: the residual of the steady problem (sections
    4.2 to 4.7). *)
Definition steady_residual (d : Boundary) (xg rg : list R)
  : outcome (list R) :=
  match d with
  | Inlet i => Inlet1D.eval i xg rg 0
  | Symm b => Symm1D.eval b xg rg 0
  | Outlet b => Outlet1D.eval b xg rg 0
  | OutletRes o => OutletRes1D.eval o xg rg 0
  | Surf b => Surf1D.eval b xg rg 0
  | ReactingSurf s => ReactingSurf1D.steady_residual s xg rg
  end.

(** Does the boundary carry a differential unknown (section 4.8)? Only a
    reacting surface with its coverage equations enabled does. *)
Definition differential (d : Boundary) : bool :=
  match d with
  | ReactingSurf s =>
      match ReactingSurf1D.m_enabled s with
      | Some true => true
      | _ => false
      end
  | _ => false
  end.

(** Modelled from the spec: [finalize(solution)] (Domain1D.h is not among
    the sources) hands [_finalize] the solution from the first unknown of
    the domain on (section 4.1). *)
Definition finalize (soln : list R) : method Boundary unit :=
  fun d => _finalize (drop (Bdry1D.loc (Bdry1D.base d)) soln) d.

(** What the driver asks of a boundary. *)
Inductive call : Type :=
| Eval (xprev xg rg : list R) (rdt : R)
| Finalize (soln : list R)
| SetTemperature (t : R)
| SetMdot (mdot : R)
| SetMoleFractions (xin : string)
| SetMoleFractionsArray (xin : list R).

(** What comes back from a call. *)
Inductive reply : Type :=
| Residual (r : outcome (list R))
| Done (o : outcome unit).

Definition step (d : Boundary) (c : call) : reply * Boundary * list event :=
  match c with
  | Eval xprev xg rg rdt => (Residual (eval d xprev xg rg rdt), d, [])
  | Finalize soln =>
      match finalize soln d with (o, d', evs) => (Done o, d', evs) end
  | SetTemperature t =>
      match Bdry1D.setTemperature t d with (o, d', evs) => (Done o, d', evs) end
  | SetMdot m =>
      match Bdry1D.setMdot m d with (o, d', evs) => (Done o, d', evs) end
  | SetMoleFractions xin =>
      match setMoleFractions xin d with (o, d', evs) => (Done o, d', evs) end
  | SetMoleFractionsArray xin =>
      match setMoleFractions_array xin d with
      | (o, d', evs) => (Done o, d', evs)
      end
  end.

(** The object after a call, and after a sequence of calls. *)
Definition after (d : Boundary) (c : call) : Boundary := (step d c).1.2.

Definition run (d : Boundary) (cs : list call) : Boundary :=
  foldl after d cs.

(** The slot [_getInitialSoln] writes the temperature to, and the number
    of leading slots it writes: two for the inlet, one for a boundary whose
    only unknown is the temperature, one and the coverages of the surface
    phase for a reacting surface whose phase is known. *)
Definition temperature_slot (d : Boundary) : nat :=
  match d with
  | Inlet _ => 1%nat
  | _ => 0%nat
  end.

Definition written_slots (d : Boundary) : option nat :=
  match d with
  | Inlet _ => Some 2%nat
  | ReactingSurf s =>
      match ReactingSurf1D.m_sphase s with
      | Some ph => Some (1 + length (SurfPhase.getCoverages ph))%nat
      | None => None
      end
  | _ => Some 1%nat
  end.

(** The stored mass fractions and the fixed coverages of a boundary. *)
Definition mass_fractions (d : Boundary) : list R :=
  match d with
  | Inlet i => Inlet1D.m_yin i
  | OutletRes o => OutletRes1D.m_yres o
  | _ => []
  end.

Definition fixed_coverages (d : Boundary) : list R :=
  match d with
  | ReactingSurf s => ReactingSurf1D.m_fixed_cov s
  | _ => []
  end.

End Boundary.

(** ** The chain of domains *)

(** Modelled from the spec: the container of the domains (OneDim.h is not
    among the sources). Section 2: it orders the domains left to right,
    wires the neighbours and computes the offset of each domain; the
    unknowns of the domains lie back to back in one array. *)
Module OneDim.

(** The domains from position [pos] on, the first of them at [start]. *)
Fixpoint place (pos start : nat) (ds : list Domain1D.t) : list Domain1D.t :=
  match ds with
  | [] => []
  | d :: rest =>
      Domain1D.set_neighbours
        (match pos with O => None | S p => Some p end)
        (match rest with [] => None | _ :: _ => Some (S pos) end)
        (Domain1D.set_loc start d)
      :: place (S pos) (start + Domain1D.size d) rest
  end.

Definition assemble (ds : list Domain1D.t) : list Domain1D.t := place 0 0 ds.

(** The length of the global vector. *)
Definition size (ds : list Domain1D.t) : nat :=
  foldr (fun d n => (Domain1D.size d + n)%nat) 0%nat ds.

End OneDim.

(** ** Objects used in the examples *)

Module Sample.

(** A boundary with two unknowns at offset [0] of the global vector, not
    yet attached to a flow, with [T = 300] and [mdot = 1/2]. *)
Definition bdry : Bdry1D.t :=
  Bdry1D.mk
    (Domain1D.mk Domain1D.cEmptyType 2 1 0 None None)
    None None 0 0 0 0 0 0 0 0 0 0 0 0 0 None None 300 (1/2).

(** A flow of two species with molar masses 2 and 32, in the free
    mass-flux formulation, which reads every composition string as equal
    mole ratios. *)
Definition flow : StFlow.t :=
  StFlow.mk 2 [2; 32] (fun _ => Some [1/2; 1/2]) true 2.

(** An inlet attached to [flow] on its right. *)
Definition inlet : Inlet1D.t :=
  Inlet1D.mk (Inlet1D.bdry (Inlet1D.create bdry LeftInlet))
    LeftInlet 0 2 [1; 0] "" (Some flow).

(** A surface phase of three species and an evaluator for it. *)
Definition phase : SurfPhase.t := SurfPhase.mk 3 [1/5; 3/10; 1/2].

Definition kinetics : InterfaceKinetics.t :=
  InterfaceKinetics.mk 0 [phase] (fun _ _ => [0; 0; 0]).

(** A reacting surface of three surface species at offset [0]. *)
Definition surface : ReactingSurf1D.t :=
  ReactingSurf1D.mk
    (Bdry1D.set_domain (Domain1D.mk Domain1D.cSurfType 4 1 0 None None) bdry)
    (Some kinetics) (Some phase) 0 3 (Some true) [] [0; 0; 0].

(** The chain of the scenario of section 8: an inlet, a flow of 20 points
    with 7 unknowns each, an outlet; and a chain with a domain without
    points. *)
Definition chain : list Domain1D.t :=
  [Domain1D.mk Domain1D.cInletType 2 1 0 None None;
   Domain1D.mk Domain1D.cFlowType 7 20 0 None None;
   Domain1D.mk Domain1D.cOutletType 1 1 0 None None].

Definition chain_with_empty : list Domain1D.t :=
  [Domain1D.mk Domain1D.cInletType 2 1 0 None None;
   Domain1D.mk Domain1D.cEmptyType 1 0 0 None None;
   Domain1D.mk Domain1D.cFlowType 7 3 0 None None].

End Sample.

(** ** Theorems on [ReactorBase] *)

Lemma index_lookup {A} (v : list A) (i : nat) (a : A) :
  v !! i = Some a -> index v i = Return a.
Proof. intros H. unfold index. by rewrite H. Qed.

Lemma size_t_add_small (a b : N) :
  (a + b < ReactorBase.size_t_modulus)%N -> ReactorBase.size_t_add a b = (a + b)%N.
Proof. intros H. unfold ReactorBase.size_t_add. by apply N.mod_small. Qed.

(** C8. The four state accessors of ReactorBase throw a CanteraError, named
    after the accessor, when the state vector is empty; when it is not, they
    return the stored components: state[0] for temperature, state[1] for
    density, the components from index 2 on for massFractions and
    state[k+2] for massFraction(k). *)
Theorem ReactorBase_state_accessors (r : ReactorBase.t) :
  (ReactorBase.m_state r = [] ->
     ReactorBase.temperature r
       = Throw (ReactorBase.state_empty_error "ReactorBase::temperature")
     /\ ReactorBase.density r
       = Throw (ReactorBase.state_empty_error "ReactorBase::density")
     /\ ReactorBase.massFractions r
       = Throw (ReactorBase.state_empty_error "ReactorBase::massFractions")
     /\ forall k, ReactorBase.massFraction r k
       = Throw (ReactorBase.state_empty_error "ReactorBase::massFraction"))
  /\ (forall T, ReactorBase.m_state r !! 0%nat = Some T ->
        ReactorBase.temperature r = Return T)
  /\ (forall rho, ReactorBase.m_state r !! 1%nat = Some rho ->
        ReactorBase.density r = Return rho)
  /\ (ReactorBase.m_state r <> [] ->
        exists ys, ReactorBase.massFractions r = Return ys
          /\ forall k : nat, ys !! k = ReactorBase.m_state r !! (k + 2)%nat)
  /\ (forall (k : N) y, (k + 2 < ReactorBase.size_t_modulus)%N ->
        ReactorBase.m_state r !! N.to_nat (k + 2) = Some y ->
        ReactorBase.massFraction r k = Return y).
Proof.
  unfold ReactorBase.temperature, ReactorBase.density,
    ReactorBase.massFractions, ReactorBase.massFraction.
  split; [|split; [|split; [|split]]].
  - by intros ->.
  - intros T HT. destruct (ReactorBase.m_state r) as [|a l]; [done|].
    simpl. by apply index_lookup.
  - intros rho Hrho. destruct (ReactorBase.m_state r) as [|a l]; [done|].
    simpl. by apply index_lookup.
  - intros Hne. destruct (ReactorBase.m_state r) as [|a l]; [done|].
    eexists; split; [done|].
    intros k. rewrite lookup_drop. f_equal. lia.
  - intros k y Hk Hy. destruct (ReactorBase.m_state r) as [|a l]; [done|].
    cbn [ReactorBase.empty]. rewrite size_t_add_small by done.
    by apply index_lookup.
Qed.

Lemma ReactorBase_state_accessors_witness :
  ReactorBase.temperature (ReactorBase.create "r") 
    = Throw (ReactorBase.state_empty_error "ReactorBase::temperature")
  /\ ReactorBase.massFraction
       (ReactorBase.mk 2 None 1 0 0 0 [300; 1; 1/4; 3/4] [] [] [] [] [] "r" None)
       1 = Return (3/4).
Proof.
  split.
  - apply (ReactorBase_state_accessors (ReactorBase.create "r")).
    reflexivity.
  - apply (ReactorBase_state_accessors
             (ReactorBase.mk 2 None 1 0 0 0 [300; 1; 1/4; 3/4]
                [] [] [] [] [] "r" None)).
    + reflexivity.
    + reflexivity.
Defined.

(** ** Theorems on the boundary objects *)

Section MethodLaws.
Context {S A B : Type}.

Lemma bind_throw (e : CanteraError) (k : A -> method S B) (s : S) :
  bind (throw e) k s = (Throw e, s, []).
Proof. reflexivity. Qed.

Lemma bind_modify (f : S -> S) (k : unit -> method S B) (s : S) :
  bind (modify f) k s = k tt (f s).
Proof. unfold bind, modify. by destruct (k tt (f s)) as [[o s'] evs]. Qed.

Lemma bind_ret (a : A) (k : A -> method S B) (s : S) :
  bind (ret a) k s = k a s.
Proof. unfold bind, ret. by destruct (k a s) as [[o s'] evs]. Qed.

Lemma bind_lift_return (a : A) (k : A -> method S B) (s : S) :
  bind (lift (Return a)) k s = k a s.
Proof. unfold bind, lift. by destruct (k a s) as [[o s'] evs]. Qed.
End MethodLaws.

(** [Bdry1D::err] throws and leaves the object as it is. *)
Lemma err_throws {S} `{Bdry1D.Derived S} (name : string) (s : S) :
  Bdry1D.err name s = (Throw (Bdry1D.base_class_error name), s, []).
Proof. reflexivity. Qed.

(** C5. A composition method (setMoleFractions with a string or an array,
    massFraction) called on the Bdry1D base class, or on a symmetry plane, a
    simple outlet or a non-reacting surface, which do not override it,
    throws at the call the CanteraError of Bdry1D::err, and the object after
    the call is the object before it; nothing is logged or requested. *)
Theorem composition_methods_unsupported
    (b : Bdry1D.t) (xin : string) (xs : list R) (k : Z) :
  (Bdry1D.setMoleFractions xin b
     = (Throw (Bdry1D.base_class_error "setMoleFractions"), b, [])
   /\ Bdry1D.setMoleFractions_array xs b
     = (Throw (Bdry1D.base_class_error "setMoleFractions"), b, [])
   /\ Bdry1D.massFraction k b
     = (Throw (Bdry1D.base_class_error "massFraction"), b, []))
  /\ forall d : Boundary, d = Symm b \/ d = Outlet b \/ d = Surf b ->
       Boundary.setMoleFractions xin d
         = (Throw (Bdry1D.base_class_error "setMoleFractions"), d, [])
       /\ Boundary.setMoleFractions_array xs d
         = (Throw (Bdry1D.base_class_error "setMoleFractions"), d, [])
       /\ Boundary.massFraction k d
         = (Throw (Bdry1D.base_class_error "massFraction"), d, []).
Proof.
  split.
  - repeat split.
  - intros d [-> | [-> | ->]]; repeat split.
Qed.

Lemma composition_methods_unsupported_witness :
  Boundary.massFraction 0 (Symm (Symm1D.create Sample.bdry))
  = (Throw (mkCanteraError "Bdry1D::massFraction"
              "attempt to call base class method massFraction"),
     Symm (Symm1D.create Sample.bdry), []).
Proof.
  apply (proj2 (composition_methods_unsupported
                  (Symm1D.create Sample.bdry) "CH4:1" [] 0)
           (Symm (Symm1D.create Sample.bdry))).
  left. reflexivity.
Defined.

(** C9. setKineticsMgr(kin), for an evaluator whose surface phase index
    names one of its phases, enables the coverage equations and sets the
    species count to that of the surface phase, whatever the enabled flag
    was: enableCoverageEquations(false) before it is overridden. *)
Theorem setKineticsMgr_enables
    (s : ReactingSurf1D.t) (kin : InterfaceKinetics.t) (ph : SurfPhase.t)
    (docov : bool) :
  InterfaceKinetics.thermo kin (InterfaceKinetics.surfacePhaseIndex kin)
    = Return ph ->
  forall s0,
    s0 = s \/ s0 = (ReactingSurf1D.enableCoverageEquations docov s).1.2 ->
    exists s',
      ReactingSurf1D.setKineticsMgr kin s0 = (Return tt, s', [])
      /\ ReactingSurf1D.m_enabled s' = Some true
      /\ ReactingSurf1D.m_nsp s' = SurfPhase.nSpecies ph
      /\ ReactingSurf1D.m_kin s' = Some kin
      /\ ReactingSurf1D.m_sphase s' = Some ph
      /\ ReactingSurf1D.m_surfindex s' = InterfaceKinetics.surfacePhaseIndex kin
      /\ ReactingSurf1D.bdry s' = ReactingSurf1D.bdry s
      /\ ReactingSurf1D.m_fixed_cov s' = ReactingSurf1D.m_fixed_cov s.
Proof.
  intros Hph s0 Hs0.
  unfold ReactingSurf1D.setKineticsMgr.
  rewrite !bind_modify.
  unfold bind at 1. cbn [ret].
  cbn [ReactingSurf1D.m_surfindex ReactingSurf1D.set_m_surfindex
       ReactingSurf1D.set_m_kin].
  rewrite Hph. rewrite !bind_modify.
  eexists. split; [reflexivity|].
  destruct Hs0 as [-> | ->]; repeat split.
Qed.

Lemma setKineticsMgr_enables_witness :
  exists s',
    ReactingSurf1D.setKineticsMgr Sample.kinetics
      (ReactingSurf1D.enableCoverageEquations false Sample.surface).1.2
    = (Return tt, s', [])
    /\ ReactingSurf1D.m_enabled s' = Some true
    /\ ReactingSurf1D.m_nsp s' = 3%Z.
Proof.
  destruct (setKineticsMgr_enables Sample.surface Sample.kinetics
              Sample.phase false eq_refl
              (ReactingSurf1D.enableCoverageEquations false Sample.surface).1.2
              (or_intror eq_refl))
    as (s' & Hcall & Hen & Hnsp & _).
  exists s'. exact (conj Hcall (conj Hen Hnsp)).
Defined.

(** C10. Inlet1D::_finalize does nothing: for every solution it returns
    with the inlet as it was (so m_mdot, m_temp, m_yin and m_V0 keep their
    values) and without any event; the same holds through the virtual call
    and for any sequence of finalize calls, after which _getInitialSoln
    still writes the specified mass flow rate and temperature. *)
Theorem Inlet1D_finalize_noop (i : Inlet1D.t) (x : list R) :
  Inlet1D._finalize x i = (Return tt, i, [])
  /\ Boundary._finalize x (Inlet i) = (Return tt, Inlet i, [])
  /\ (forall solns : list (list R),
        Boundary.run (Inlet i) (Boundary.Finalize <$> solns) = Inlet i)
  /\ (forall x0 : list R,
        Boundary._getInitialSoln (Boundary._finalize x (Inlet i)).1.2 x0
        = Inlet1D._getInitialSoln i x0).
Proof.
  split; [reflexivity|]. split; [reflexivity|]. split.
  - intros solns. induction solns as [|soln solns IH]; [reflexivity|].
    exact IH.
  - intros x0. reflexivity.
Qed.


(** ** Theorems on the chain of domains *)

Lemma OneDim_size_app (l1 l2 : list Domain1D.t) :
  OneDim.size (l1 ++ l2) = (OneDim.size l1 + OneDim.size l2)%nat.
Proof. induction l1 as [|d l1 IH]; simpl; [done|]. rewrite IH. lia. Qed.

(** The sizes of the domains before position [j] include those before
    position [i < j] and the size of the domain at [i]. *)
Lemma OneDim_size_take_lt (ds : list Domain1D.t) (i j : nat) (d : Domain1D.t) :
  (i < j)%nat -> ds !! i = Some d ->
  (OneDim.size (take i ds) + Domain1D.size d <= OneDim.size (take j ds))%nat.
Proof.
  revert i j. induction ds as [|d0 ds IH]; intros i j Hij Hi; [done|].
  destruct j as [|j]; [lia|]. destruct i as [|i]; simpl in *.
  - injection Hi as ->. lia.
  - specialize (IH i j ltac:(lia) Hi). lia.
Qed.

Lemma OneDim_size_take_le (ds : list Domain1D.t) (i : nat) (d : Domain1D.t) :
  ds !! i = Some d ->
  (OneDim.size (take i ds) + Domain1D.size d <= OneDim.size ds)%nat.
Proof.
  intros Hi. rewrite <- (take_drop_middle ds i d Hi) at 2.
  rewrite OneDim_size_app. simpl. lia.
Qed.

(** Every position below the total size lies in the range of one domain. *)
Lemma OneDim_size_cover (ds : list Domain1D.t) (g : nat) :
  (g < OneDim.size ds)%nat ->
  exists i d, ds !! i = Some d
    /\ (OneDim.size (take i ds) <= g
        < OneDim.size (take i ds) + Domain1D.size d)%nat.
Proof.
  revert g. induction ds as [|d0 ds IH]; simpl; intros g Hg; [lia|].
  destruct (decide (g < Domain1D.size d0)%nat) as [Hlt|Hge].
  - exists 0%nat, d0. simpl. split; [done|lia].
  - destruct (IH (g - Domain1D.size d0)%nat ltac:(lia)) as (i & d & Hi & Hr).
    exists (S i), d. simpl. split; [done|lia].
Qed.

(** The domain at position [i] of the placed chain is the domain at
    position [i] of the chain, at the offset that follows the domains
    before it, with the neighbours [i-1] and [i+1] where they exist. *)
Lemma OneDim_place_lookup (ds : list Domain1D.t) (pos start i : nat) :
  OneDim.place pos start ds !! i
  = (fun d =>
       Domain1D.set_neighbours
         (match (pos + i)%nat with O => None | S p => Some p end)
         (match ds !! S i with None => None | Some _ => Some (S (pos + i)) end)
         (Domain1D.set_loc (start + OneDim.size (take i ds)) d)) <$> ds !! i.
Proof.
  revert pos start i. induction ds as [|d ds IH]; intros pos start i; [done|].
  destruct i as [|i]; simpl.
  - rewrite !Nat.add_0_r. by destruct ds.
  - rewrite IH. replace (S pos + i)%nat with (pos + S i)%nat by lia.
    destruct (ds !! i) as [di|]; simpl; [|done].
    do 3 f_equal. lia.
Qed.

Lemma OneDim_place_length (ds : list Domain1D.t) (pos start : nat) :
  length (OneDim.place pos start ds) = length ds.
Proof.
  revert pos start. induction ds as [|d ds IH]; intros pos start; [done|].
  simpl. by rewrite IH.
Qed.

Lemma OneDim_assemble_lookup (ds : list Domain1D.t) (i : nat) (d' : Domain1D.t) :
  OneDim.assemble ds !! i = Some d' ->
  exists d, ds !! i = Some d
    /\ Domain1D.loc d' = OneDim.size (take i ds)
    /\ Domain1D.nComponents d' = Domain1D.nComponents d
    /\ Domain1D.nPoints d' = Domain1D.nPoints d
    /\ Domain1D.m_type d' = Domain1D.m_type d
    /\ Domain1D.size d' = Domain1D.size d.
Proof.
  unfold OneDim.assemble. rewrite OneDim_place_lookup.
  destruct (ds !! i) as [d|]; simpl; [|done].
  intros [= <-]. exists d. repeat split.
Qed.

Lemma Domain1D_owns_range (d : Domain1D.t) (g : nat) :
  Domain1D.owns d g = true
  <-> (Domain1D.loc d <= g < Domain1D.loc d + Domain1D.size d)%nat.
Proof. unfold Domain1D.owns. by rewrite bool_decide_eq_true. Qed.

(** The unknowns of a domain, addressed by variable and grid point, lie in
    its range. *)
Lemma Domain1D_index_owned (d : Domain1D.t) (j i : nat) :
  (j < Domain1D.nComponents d)%nat -> (i < Domain1D.nPoints d)%nat ->
  Domain1D.owns d (Domain1D.index d j i) = true.
Proof.
  intros Hj Hi. apply Domain1D_owns_range.
  unfold Domain1D.index, Domain1D.size. nia.
Qed.

(** C6. In the chain the assembler has placed, the domains keep their
    numbers of variables and points; the first offset is 0 and each domain
    starts where the one before it ends, so that offsets never decrease
    from left to right and the range [offset, offset + nv*np) of a domain
    ends at or before the offset of every domain to its right; a position
    of the global vector lies in the range of some domain exactly when it
    is below the total size, and it lies in the range of one domain only.
    This holds for every chain, whatever the order and the numbers of
    points (0, 1 or more) of its domains. *)
Theorem offsets_tile_global_vector (ds : list Domain1D.t) :
  let chain := OneDim.assemble ds in
  length chain = length ds
  /\ (forall i d', chain !! i = Some d' ->
        exists d, ds !! i = Some d
          /\ Domain1D.nComponents d' = Domain1D.nComponents d
          /\ Domain1D.nPoints d' = Domain1D.nPoints d)
  /\ (forall d', chain !! 0%nat = Some d' -> Domain1D.loc d' = 0%nat)
  /\ (forall i d1 d2, chain !! i = Some d1 -> chain !! S i = Some d2 ->
        Domain1D.loc d2 = (Domain1D.loc d1 + Domain1D.size d1)%nat)
  /\ (forall i j d1 d2, (i < j)%nat ->
        chain !! i = Some d1 -> chain !! j = Some d2 ->
        (Domain1D.loc d1 <= Domain1D.loc d2)%nat
        /\ (Domain1D.loc d1 + Domain1D.size d1 <= Domain1D.loc d2)%nat)
  /\ (forall g, (g < OneDim.size ds)%nat
        <-> exists i d', chain !! i = Some d' /\ Domain1D.owns d' g = true)
  /\ (forall g i j d1 d2,
        chain !! i = Some d1 -> chain !! j = Some d2 ->
        Domain1D.owns d1 g = true -> Domain1D.owns d2 g = true -> i = j).
Proof.
  intros chain.
  assert (Hlen : length chain = length ds)
    by apply OneDim_place_length.
  assert (Hord : forall i j d1 d2, (i < j)%nat ->
            chain !! i = Some d1 -> chain !! j = Some d2 ->
            (Domain1D.loc d1 + Domain1D.size d1 <= Domain1D.loc d2)%nat).
  { intros i j d1 d2 Hij H1 H2.
    apply OneDim_assemble_lookup in H1 as (e1 & He1 & -> & _ & _ & _ & ->).
    apply OneDim_assemble_lookup in H2 as (e2 & He2 & -> & _).
    by apply OneDim_size_take_lt. }
  split; [done|]. split; [|split; [|split; [|split; [|split]]]].
  - intros i d' Hd'.
    apply OneDim_assemble_lookup in Hd' as (d & Hd & _ & Hnv & Hnp & _).
    by exists d.
  - intros d' Hd'. by apply OneDim_assemble_lookup in Hd' as (d & _ & -> & _).
  - intros i d1 d2 H1 H2.
    apply OneDim_assemble_lookup in H1 as (e1 & He1 & -> & _ & _ & _ & ->).
    apply OneDim_assemble_lookup in H2 as (e2 & He2 & -> & _).
    rewrite (take_S_r ds i e1 He1), OneDim_size_app. simpl. lia.
  - intros i j d1 d2 Hij H1 H2. specialize (Hord i j d1 d2 Hij H1 H2). lia.
  - intros g. split.
    + intros Hg. destruct (OneDim_size_cover ds g Hg) as (i & d & Hd & Hr).
      destruct (lookup_lt_is_Some_2 chain i) as [d' Hd'].
      { rewrite Hlen. by apply lookup_lt_Some in Hd. }
      exists i, d'. split; [done|].
      apply Domain1D_owns_range.
      apply OneDim_assemble_lookup in Hd' as (e & He & -> & _ & _ & _ & ->).
      by simplify_eq.
    + intros (i & d' & Hd' & Hown). apply Domain1D_owns_range in Hown.
      apply OneDim_assemble_lookup in Hd' as (e & He & Hloc & _ & _ & _ & Hsz).
      pose proof (OneDim_size_take_le ds i e He). lia.
  - intros g i j d1 d2 H1 H2 Ho1 Ho2.
    apply Domain1D_owns_range in Ho1. apply Domain1D_owns_range in Ho2.
    destruct (Nat.lt_trichotomy i j) as [Hlt | [-> | Hgt]]; [|done|].
    + specialize (Hord i j d1 d2 Hlt H1 H2). lia.
    + specialize (Hord j i d2 d1 Hgt H2 H1). lia.
Qed.

Lemma offsets_tile_global_vector_witness :
  (Domain1D.loc <$> OneDim.assemble Sample.chain = [0; 2; 142]%nat
   /\ OneDim.size Sample.chain = 143%nat)
  /\ Domain1D.loc <$> OneDim.assemble Sample.chain_with_empty = [0; 2; 2]%nat
  /\ exists i d', OneDim.assemble Sample.chain !! i = Some d'
        /\ Domain1D.owns d' 100 = true.
Proof.
  split; [split; reflexivity|]. split; [reflexivity|].
  apply (offsets_tile_global_vector Sample.chain).
  simpl. lia.
Defined.

(** ** Theorems on the residuals *)

Lemma assign_return (x : list R) (i : nat) (v : R) :
  (i < length x)%nat -> assign x i v = Return (<[i:=v]> x).
Proof. intros Hi. unfold assign. by rewrite decide_True. Qed.

Lemma index_return {A} (v : list A) (i : nat) (a : A) :
  index v i = Return a <-> v !! i = Some a.
Proof.
  unfold index. split.
  - destruct (v !! i); [by intros [= ->]|done].
  - by intros ->.
Qed.

(** The residual of an unconstrained inlet, in closed form. *)
Lemma Inlet1D_eval_unconstrained (i : Inlet1D.t) (f : StFlow.t)
    (xg rg : list R) (rdt x0 x1 : R) :
  Inlet1D.m_V0 i = 0 -> Inlet1D.m_flow i = Some f ->
  StFlow.free_mass_flux f = true ->
  xg !! Bdry1D.loc (Inlet1D.bdry i) = Some x0 ->
  xg !! (Bdry1D.loc (Inlet1D.bdry i) + 1)%nat = Some x1 ->
  (Bdry1D.loc (Inlet1D.bdry i) + 1 < length rg)%nat ->
  Inlet1D.eval i xg rg rdt
  = Return (<[(Bdry1D.loc (Inlet1D.bdry i) + 1)%nat
               := x1 - Bdry1D.m_temp (Inlet1D.bdry i)]>
            (<[Bdry1D.loc (Inlet1D.bdry i)
                := x0 - Bdry1D.m_mdot (Inlet1D.bdry i)]> rg)).
Proof.
  intros HV0 Hflow Hfree H0 H1 Hrg. unfold Inlet1D.eval.
  rewrite (index_lookup _ _ _ H0), (index_lookup _ _ _ H1), Hflow.
  cbn [obind deref]. rewrite Hfree.
  destruct (Req_dec_T (Inlet1D.m_V0 i) 0) as [_|Hne]; [|done].
  cbn [obind]. rewrite assign_return by lia. cbn [obind].
  rewrite assign_return by (rewrite length_insert; lia). done.
Qed.

(** C1. For an unconstrained inlet (spreading rate zero, attached flow in
    the free mass-flux formulation) whose two slots lie in the trial vector
    and in the residual buffer, eval returns, and writes
    (trial mdot - specified mdot) into its first slot and
    (trial T - specified T) into its second. At the initial guess that
    _getInitialSoln writes into the slots both residuals are 0. At a trial
    vector that differs from the specified values by dm and dT the two
    residuals are dm and dT: each is the perturbation itself, hence linear
    in it, and not 0 when the perturbation is not 0. *)
Theorem inlet_dirichlet_residual (i : Inlet1D.t) (f : StFlow.t)
    (xg rg : list R) (rdt : R) :
  let loc := Bdry1D.loc (Inlet1D.bdry i) in
  let mdot := Bdry1D.m_mdot (Inlet1D.bdry i) in
  let T := Bdry1D.m_temp (Inlet1D.bdry i) in
  Inlet1D.m_V0 i = 0 -> Inlet1D.m_flow i = Some f ->
  StFlow.free_mass_flux f = true ->
  (loc + 1 < length xg)%nat -> (loc + 1 < length rg)%nat ->
  (forall x0 x1, xg !! loc = Some x0 -> xg !! (loc + 1)%nat = Some x1 ->
     exists r, Inlet1D.eval i xg rg rdt = Return r
       /\ r !! loc = Some (x0 - mdot) /\ r !! (loc + 1)%nat = Some (x1 - T))
  /\ (exists x r,
        Inlet1D._getInitialSoln i (drop loc xg) = Return x
        /\ Inlet1D.eval i (take loc xg ++ x) rg rdt = Return r
        /\ r !! loc = Some 0 /\ r !! (loc + 1)%nat = Some 0)
  /\ (forall dm dT, exists r,
        Inlet1D.eval i
          (<[loc := mdot + dm]> (<[(loc + 1)%nat := T + dT]> xg)) rg rdt
        = Return r
        /\ r !! loc = Some dm /\ r !! (loc + 1)%nat = Some dT
        /\ (dm <> 0 -> r !! loc <> Some 0)
        /\ (dT <> 0 -> r !! (loc + 1)%nat <> Some 0)).
Proof.
  intros loc mdot T HV0 Hflow Hfree Hxg Hrg.
  assert (Hread : forall r0 v0 v1,
            (<[(loc + 1)%nat := v1]> (<[loc := v0]> rg)) = r0 ->
            r0 !! loc = Some v0 /\ r0 !! (loc + 1)%nat = Some v1).
  { intros r0 v0 v1 <-. split.
    - rewrite list_lookup_insert_ne by lia.
      apply list_lookup_insert_eq. lia.
    - apply list_lookup_insert_eq. rewrite length_insert. lia. }
  split; [|split].
  - intros x0 x1 H0 H1. eexists. split.
    + by apply (Inlet1D_eval_unconstrained i f).
    + by apply Hread.
  - unfold Inlet1D._getInitialSoln.
    assert (Hd : (1 < length (drop loc xg))%nat)
      by (rewrite length_drop; lia).
    rewrite assign_return by lia. cbn [obind].
    rewrite assign_return by (rewrite length_insert; lia).
    eexists. eexists. split; [reflexivity|].
    assert (Htake : length (take loc xg) = loc)
      by (rewrite length_take; lia).
    assert (H0 : (take loc xg
                  ++ <[1%nat := T]> (<[0%nat := mdot]> (drop loc xg)))
                 !! loc = Some mdot).
    { rewrite lookup_app_r by lia. rewrite Htake, Nat.sub_diag.
      rewrite list_lookup_insert_ne by lia.
      apply list_lookup_insert_eq. lia. }
    assert (H1 : (take loc xg
                  ++ <[1%nat := T]> (<[0%nat := mdot]> (drop loc xg)))
                 !! (loc + 1)%nat = Some T).
    { rewrite lookup_app_r by lia. rewrite Htake.
      replace (loc + 1 - loc)%nat with 1%nat by lia.
      apply list_lookup_insert_eq. rewrite length_insert. lia. }
    split.
    + by apply (Inlet1D_eval_unconstrained i f).
    + replace 0 with (mdot - mdot) at 1 by lra.
      replace 0 with (T - T) by lra. by apply Hread.
  - intros dm dT.
    assert (H0 : (<[loc := mdot + dm]> (<[(loc + 1)%nat := T + dT]> xg))
                 !! loc = Some (mdot + dm)).
    { apply list_lookup_insert_eq. rewrite length_insert. lia. }
    assert (H1 : (<[loc := mdot + dm]> (<[(loc + 1)%nat := T + dT]> xg))
                 !! (loc + 1)%nat = Some (T + dT)).
    { rewrite list_lookup_insert_ne by lia.
      apply list_lookup_insert_eq. lia. }
    eexists. split; [by apply (Inlet1D_eval_unconstrained i f)|].
    match goal with
    | |- ?r !! _ = _ /\ _ =>
        destruct (Hread r (mdot + dm - mdot) (T + dT - T) eq_refl)
          as [Hr0 Hr1]
    end.
    replace (mdot + dm - mdot) with dm in Hr0 by lra.
    replace (T + dT - T) with dT in Hr1 by lra.
    rewrite Hr0, Hr1. repeat split.
    + intros Hne [= Heq]. done.
    + intros Hne [= Heq]. done.
Qed.

Lemma inlet_dirichlet_residual_witness :
  exists x r,
    Inlet1D._getInitialSoln Sample.inlet (drop 0 [0; 0; 0]) = Return x
    /\ Inlet1D.eval Sample.inlet (take 0 [0; 0; 0] ++ x) [9; 9; 9] 0 = Return r
    /\ r !! 0%nat = Some 0 /\ r !! 1%nat = Some 0.
Proof.
  apply (inlet_dirichlet_residual Sample.inlet Sample.flow
           [0; 0; 0] [9; 9; 9] 0).
  - reflexivity.
  - reflexivity.
  - reflexivity.
  - simpl. lia.
  - simpl. lia.
Defined.

(** The loop over the coverage rows: when every row has a value and the
    slots lie in the buffer, the loop returns the buffer with the rows
    written and the other slots as they were. *)
Lemma ReactingSurf1D_rows_return (row : nat -> outcome R) (v : nat -> R)
    (loc : nat) (n k : nat) (rg : list R) :
  (forall j, (k <= j < k + n)%nat -> row j = Return (v j)) ->
  (loc + k + n < length rg)%nat ->
  exists rg', ReactingSurf1D.rows row loc k n rg = Return rg'
    /\ length rg' = length rg
    /\ (forall j, (k <= j < k + n)%nat -> rg' !! (loc + 1 + j)%nat = Some (v j))
    /\ (forall i, (i < loc + 1 + k \/ loc + 1 + k + n <= i)%nat ->
          rg' !! i = rg !! i).
Proof.
  revert k rg. induction n as [|n IH]; intros k rg Hrow Hlen.
  - exists rg. split; [done|]. split; [done|].
    split; [intros j Hj; lia|done].
  - simpl. rewrite (Hrow k) by lia. cbn [obind].
    rewrite assign_return by lia. cbn [obind].
    destruct (IH (S k) (<[(loc + 1 + k)%nat := v k]> rg))
      as (rg' & Hrun & Hlen' & Hin & Hout).
    { intros j Hj. apply Hrow. lia. }
    { rewrite length_insert. lia. }
    exists rg'. split; [done|]. rewrite length_insert in Hlen'.
    split; [done|]. split.
    + intros j Hj. destruct (decide (j = k)) as [->|Hne].
      * rewrite Hout by lia. apply list_lookup_insert_eq. lia.
      * apply Hin. lia.
    + intros i Hi. rewrite Hout by lia.
      apply list_lookup_insert_ne. lia.
Qed.

(** The residual of a reacting surface whose coverage equations are
    disabled: the temperature row and the held coverages. *)
Lemma ReactingSurf1D_eval_disabled (s : ReactingSurf1D.t)
    (xprev xg rg : list R) (rdt : R) :
  let loc := Bdry1D.loc (ReactingSurf1D.bdry s) in
  let n := Z.to_nat (ReactingSurf1D.m_nsp s) in
  ReactingSurf1D.m_enabled s = Some false ->
  (0 <= ReactingSurf1D.m_nsp s)%Z ->
  (n <= length (ReactingSurf1D.m_fixed_cov s))%nat ->
  (loc + n < length xg)%nat -> (loc + n < length rg)%nat ->
  exists r, ReactingSurf1D.eval s xprev xg rg rdt = Return r
    /\ length r = length rg
    /\ (forall k xk ck, (k < n)%nat ->
          xg !! (loc + 1 + k)%nat = Some xk ->
          ReactingSurf1D.m_fixed_cov s !! k = Some ck ->
          r !! (loc + 1 + k)%nat = Some (xk - ck))
    /\ (forall x0, xg !! loc = Some x0 ->
          r !! loc = Some (x0 - Bdry1D.m_temp (ReactingSurf1D.bdry s))).
Proof.
  intros loc n Hen Hnsp Hfix Hxg Hrg.
  unfold ReactingSurf1D.eval, ReactingSurf1D.steady_residual.
  fold loc. fold n.
  destruct (lookup_lt_is_Some_2 xg loc ltac:(lia)) as [x0 Hx0].
  rewrite (index_lookup _ _ _ Hx0). cbn [obind].
  rewrite assign_return by lia. rewrite Hen. cbn [obind deref].
  rewrite decide_True by done. cbn [obind].
  destruct (ReactingSurf1D_rows_return
              (ReactingSurf1D.coverage_row s xg false [])
              (fun j => default 0 (xg !! (loc + 1 + j)%nat)
                        - default 0 (ReactingSurf1D.m_fixed_cov s !! j))
              loc n 0 (<[loc := x0 - Bdry1D.m_temp (ReactingSurf1D.bdry s)]> rg))
    as (r & Hrun & Hlen & Hin & Hout).
  { intros j Hj. unfold ReactingSurf1D.coverage_row. fold loc.
    destruct (lookup_lt_is_Some_2 xg (loc + 1 + j) ltac:(lia)) as [xj Hxj].
    destruct (lookup_lt_is_Some_2 (ReactingSurf1D.m_fixed_cov s) j ltac:(lia))
      as [cj Hcj].
    rewrite (index_lookup _ _ _ Hxj), (index_lookup _ _ _ Hcj), Hxj, Hcj.
    done. }
  { rewrite length_insert. lia. }
  rewrite Hrun. cbn [obind]. exists r. split; [done|].
  rewrite length_insert in Hlen. split; [done|]. split.
  - intros k xk ck Hk Hxk Hck. rewrite Hin by lia. by rewrite Hxk, Hck.
  - intros x0' Hx0'. rewrite Hout by lia. simplify_eq.
    apply list_lookup_insert_eq. lia.
Qed.

(** What [_finalize] stores: the coverages of the accepted solution. *)
Lemma ReactingSurf1D_finalize_return (s : ReactingSurf1D.t) (x : list R) :
  let n := Z.to_nat (ReactingSurf1D.m_nsp s) in
  (0 <= ReactingSurf1D.m_nsp s)%Z ->
  (1 + n <= length x)%nat ->
  (n <= length (ReactingSurf1D.m_fixed_cov s))%nat ->
  ReactingSurf1D._finalize x s
  = (Return tt,
     ReactingSurf1D.set_m_fixed_cov
       (take n (drop 1 x) ++ drop n (ReactingSurf1D.m_fixed_cov s)) s,
     []).
Proof.
  intros n Hnsp Hx Hfix. unfold ReactingSurf1D._finalize, copy_range.
  rewrite decide_True by done. fold n.
  rewrite decide_True by lia. rewrite decide_True by done.
  by rewrite bind_lift_return.
Qed.

(** C2. After _finalize(x) has captured the coverages x[1..nsp] of an
    accepted solution and the coverage equations have been disabled, eval
    writes into the slot of every coverage k the residual
    (trial coverage[k] - x[k+1]) exactly; the residuals of the coverage
    slots are the same whatever the trial temperature. *)
Theorem disabled_coverage_hold (s : ReactingSurf1D.t)
    (x xprev xg rg : list R) (rdt : R) :
  let loc := Bdry1D.loc (ReactingSurf1D.bdry s) in
  let n := Z.to_nat (ReactingSurf1D.m_nsp s) in
  (0 <= ReactingSurf1D.m_nsp s)%Z ->
  (1 + n <= length x)%nat ->
  (n <= length (ReactingSurf1D.m_fixed_cov s))%nat ->
  (loc + n < length xg)%nat -> (loc + n < length rg)%nat ->
  exists s1 s2 r,
    ReactingSurf1D._finalize x s = (Return tt, s1, [])
    /\ ReactingSurf1D.enableCoverageEquations false s1 = (Return tt, s2, [])
    /\ ReactingSurf1D.eval s2 xprev xg rg rdt = Return r
    /\ (forall k xk ck, (k < n)%nat ->
          xg !! (loc + 1 + k)%nat = Some xk -> x !! (1 + k)%nat = Some ck ->
          r !! (loc + 1 + k)%nat = Some (xk - ck))
    /\ (forall T', exists r',
          ReactingSurf1D.eval s2 xprev (<[loc := T']> xg) rg rdt = Return r'
          /\ forall k, (k < n)%nat ->
               r' !! (loc + 1 + k)%nat = r !! (loc + 1 + k)%nat).
Proof.
  intros loc n Hnsp Hx Hfix Hxg Hrg.
  set (c := take n (drop 1 x) ++ drop n (ReactingSurf1D.m_fixed_cov s)).
  set (s1 := ReactingSurf1D.set_m_fixed_cov c s).
  set (s2 := ReactingSurf1D.set_m_enabled (Some false) s1).
  assert (Hc : forall k, (k < n)%nat -> c !! k = x !! (1 + k)%nat).
  { intros k Hk. unfold c. rewrite lookup_app_l.
    - rewrite lookup_take_lt by done. by rewrite lookup_drop.
    - rewrite length_take, length_drop. lia. }
  assert (Hclen : (n <= length c)%nat).
  { unfold c. rewrite length_app, length_take, !length_drop. lia. }
  assert (Heval : forall xg', (loc + n < length xg')%nat ->
            exists r, ReactingSurf1D.eval s2 xprev xg' rg rdt = Return r
              /\ forall k xk ck, (k < n)%nat ->
                   xg' !! (loc + 1 + k)%nat = Some xk ->
                   x !! (1 + k)%nat = Some ck ->
                   r !! (loc + 1 + k)%nat = Some (xk - ck)).
  { intros xg' Hxg'.
    destruct (ReactingSurf1D_eval_disabled s2 xprev xg' rg rdt)
      as (r & Hr & _ & Hcov & _); try done.
    exists r. split; [done|]. intros k xk ck Hk Hxk Hck.
    apply Hcov; [done|done|]. simpl. by rewrite Hc. }
  destruct (Heval xg Hxg) as (r & Hr & Hcov).
  exists s1, s2, r. split; [by apply ReactingSurf1D_finalize_return|].
  split; [done|]. split; [done|]. split; [done|].
  intros T'. destruct (Heval (<[loc := T']> xg)) as (r' & Hr' & Hcov').
  { rewrite length_insert. lia. }
  exists r'. split; [done|]. intros k Hk.
  destruct (lookup_lt_is_Some_2 xg (loc + 1 + k) ltac:(lia)) as [xk Hxk].
  destruct (lookup_lt_is_Some_2 x (1 + k) ltac:(lia)) as [ck Hck].
  rewrite (Hcov k xk ck) by done.
  apply Hcov'; [done| |done].
  rewrite list_lookup_insert_ne by lia. done.
Qed.

Lemma disabled_coverage_hold_witness :
  exists s1 s2 r,
    ReactingSurf1D._finalize [1000; 1/5; 3/10; 1/2] Sample.surface
      = (Return tt, s1, [])
    /\ ReactingSurf1D.enableCoverageEquations false s1 = (Return tt, s2, [])
    /\ ReactingSurf1D.eval s2 [] [900; 1; 1; 1] [0; 0; 0; 0] 5 = Return r
    /\ (forall k xk ck, (k < 3)%nat ->
          [900; 1; 1; 1] !! (0 + 1 + k)%nat = Some xk ->
          [1000; 1/5; 3/10; 1/2] !! (1 + k)%nat = Some ck ->
          r !! (0 + 1 + k)%nat = Some (xk - ck))
    /\ (forall T', exists r',
          ReactingSurf1D.eval s2 [] (<[0%nat := T']> [900; 1; 1; 1])
            [0; 0; 0; 0] 5 = Return r'
          /\ forall k, (k < 3)%nat ->
               r' !! (0 + 1 + k)%nat = r !! (0 + 1 + k)%nat).
Proof.
  apply (disabled_coverage_hold Sample.surface [1000; 1/5; 3/10; 1/2] []
           [900; 1; 1; 1] [0; 0; 0; 0] 5).
  - simpl. lia.
  - simpl. lia.
  - simpl. lia.
  - simpl. lia.
  - simpl. lia.
Defined.

(** When the loop over the coverage rows returns, the buffer has kept its
    length and the slots of the rows lie in it. *)
Lemma ReactingSurf1D_rows_inv (row : nat -> outcome R) (loc n k : nat)
    (rg rg' : list R) :
  ReactingSurf1D.rows row loc k n rg = Return rg' ->
  length rg' = length rg /\ (n = 0 \/ loc + k + n < length rg)%nat.
Proof.
  revert k rg. induction n as [|n IH]; intros k rg; simpl.
  - intros [= ->]. split; [done|by left].
  - destruct (row k) as [v| |]; cbn [obind]; [|done|done].
    unfold assign. destruct (decide (loc + 1 + k < length rg)%nat); [|done].
    cbn [obind]. intros Hrun. apply IH in Hrun as [Hlen Hn].
    rewrite length_insert in Hlen, Hn. split; [done|]. right. lia.
Qed.

Lemma ReactingSurf1D_steady_inv (s : ReactingSurf1D.t) (xg rg rs : list R) :
  ReactingSurf1D.steady_residual s xg rg = Return rs ->
  length rs = length rg
  /\ (Bdry1D.loc (ReactingSurf1D.bdry s)
      + Z.to_nat (ReactingSurf1D.m_nsp s) < length rg)%nat.
Proof.
  unfold ReactingSurf1D.steady_residual.
  destruct (index xg _) as [x0| |]; cbn [obind]; [|done|done].
  unfold assign at 1.
  destruct (decide (Bdry1D.loc (ReactingSurf1D.bdry s) < length rg)%nat)
    as [Hloc|]; [|done].
  cbn [obind].
  destruct (deref (ReactingSurf1D.m_enabled s)) as [en| |];
    cbn [obind]; [|done|done].
  destruct (decide (0 <= ReactingSurf1D.m_nsp s)%Z); [|done].
  match goal with
  | |- obind ?o _ = _ -> _ => destruct o as [sdot| |]
  end; cbn [obind]; [|done|done].
  intros Hrun. apply ReactingSurf1D_rows_inv in Hrun as [Hlen Hn].
  rewrite length_insert in Hlen, Hn. split; [done|lia].
Qed.

Lemma ReactingSurf1D_steady_enabled (s : ReactingSurf1D.t)
    (xg rg rs : list R) :
  ReactingSurf1D.steady_residual s xg rg = Return rs ->
  exists en, ReactingSurf1D.m_enabled s = Some en.
Proof.
  unfold ReactingSurf1D.steady_residual.
  destruct (index xg _) as [x0| |]; cbn [obind]; [|done..].
  destruct (assign rg _ _) as [r0| |]; cbn [obind]; [|done..].
  destruct (ReactingSurf1D.m_enabled s) as [en|]; [|done].
  intros _. by exists en.
Qed.

(** The backward-Euler term on the rows of the coverages. *)
Lemma ReactingSurf1D_damping (loc n : nat) (xprev xg rs : list R) (rdt : R) :
  (loc + n < length rs)%nat -> (loc + n < length xg)%nat ->
  (loc + n < length xprev)%nat ->
  exists r,
    ReactingSurf1D.rows (ReactingSurf1D.damped_row loc xprev xg rs rdt)
      loc 0 n rs = Return r
    /\ length r = length rs
    /\ (forall k rk xk pk, (k < n)%nat ->
          rs !! (loc + 1 + k)%nat = Some rk ->
          xg !! (loc + 1 + k)%nat = Some xk ->
          xprev !! (loc + 1 + k)%nat = Some pk ->
          r !! (loc + 1 + k)%nat = Some (rk - rdt * (xk - pk)))
    /\ (forall i, (i < loc + 1 \/ loc + 1 + n <= i)%nat -> r !! i = rs !! i).
Proof.
  intros Hrs Hxg Hxp.
  destruct (ReactingSurf1D_rows_return
              (ReactingSurf1D.damped_row loc xprev xg rs rdt)
              (fun j => default 0 (rs !! (loc + 1 + j)%nat)
                        - rdt * (default 0 (xg !! (loc + 1 + j)%nat)
                                 - default 0 (xprev !! (loc + 1 + j)%nat)))
              loc n 0 rs)
    as (r & Hrun & Hlen & Hin & Hout).
  { intros j Hj. unfold ReactingSurf1D.damped_row.
    destruct (lookup_lt_is_Some_2 rs (loc + 1 + j) ltac:(lia)) as [rj Hrj].
    destruct (lookup_lt_is_Some_2 xg (loc + 1 + j) ltac:(lia)) as [xj Hxj].
    destruct (lookup_lt_is_Some_2 xprev (loc + 1 + j) ltac:(lia)) as [pj Hpj].
    rewrite (index_lookup _ _ _ Hrj), (index_lookup _ _ _ Hxj),
      (index_lookup _ _ _ Hpj), Hrj, Hxj, Hpj. done. }
  { lia. }
  exists r. split; [done|]. split; [done|]. split.
  - intros k rk xk pk Hk Hrk Hxk Hpk. rewrite Hin by lia.
    by rewrite Hrk, Hxk, Hpk.
  - intros i Hi. apply Hout. lia.
Qed.

(** C3. For vectors of one length, eval with rdt = 0 gives the steady
    residual of every boundary variant. A variant without differential
    unknown (inlet, symmetry plane, outlet, outlet with reservoir,
    non-reacting surface, and a reacting surface with its coverage
    equations disabled) gives the steady residual for every rdt. A reacting
    surface with its coverage equations enabled keeps the row of the
    temperature and subtracts rdt * (trial[k] - previous_accepted[k]) from
    the steady residual of each coverage row, and changes no other slot. *)
Theorem pseudo_time_damping (d : Boundary) (xprev xg rg : list R) :
  length xprev = length xg -> length xg = length rg ->
  Boundary.eval d xprev xg rg 0 = Boundary.steady_residual d xg rg
  /\ (Boundary.differential d = false ->
      forall rdt,
        Boundary.eval d xprev xg rg rdt = Boundary.steady_residual d xg rg)
  /\ (forall s rs rdt,
        d = ReactingSurf s -> ReactingSurf1D.m_enabled s = Some true ->
        Boundary.steady_residual d xg rg = Return rs ->
        let loc := Bdry1D.loc (ReactingSurf1D.bdry s) in
        exists r,
          Boundary.eval d xprev xg rg rdt = Return r
          /\ length r = length rs
          /\ (forall k rk xk pk,
                (k < Z.to_nat (ReactingSurf1D.m_nsp s))%nat ->
                rs !! (loc + 1 + k)%nat = Some rk ->
                xg !! (loc + 1 + k)%nat = Some xk ->
                xprev !! (loc + 1 + k)%nat = Some pk ->
                r !! (loc + 1 + k)%nat = Some (rk - rdt * (xk - pk)))
          /\ (forall i,
                (i < loc + 1
                 \/ loc + 1 + Z.to_nat (ReactingSurf1D.m_nsp s) <= i)%nat ->
                r !! i = rs !! i)).
Proof.
  intros Hxp Hxg.
  assert (Hdiff : forall s rs rdt,
            ReactingSurf1D.m_enabled s = Some true ->
            ReactingSurf1D.steady_residual s xg rg = Return rs ->
            exists r,
              ReactingSurf1D.eval s xprev xg rg rdt = Return r
              /\ length r = length rs
              /\ (forall k rk xk pk,
                    (k < Z.to_nat (ReactingSurf1D.m_nsp s))%nat ->
                    rs !! (Bdry1D.loc (ReactingSurf1D.bdry s) + 1 + k)%nat
                      = Some rk ->
                    xg !! (Bdry1D.loc (ReactingSurf1D.bdry s) + 1 + k)%nat
                      = Some xk ->
                    xprev !! (Bdry1D.loc (ReactingSurf1D.bdry s) + 1 + k)%nat
                      = Some pk ->
                    r !! (Bdry1D.loc (ReactingSurf1D.bdry s) + 1 + k)%nat
                      = Some (rk - rdt * (xk - pk)))
              /\ (forall i,
                    (i < Bdry1D.loc (ReactingSurf1D.bdry s) + 1
                     \/ Bdry1D.loc (ReactingSurf1D.bdry s) + 1
                        + Z.to_nat (ReactingSurf1D.m_nsp s) <= i)%nat ->
                    r !! i = rs !! i)).
  { intros s rs rdt Hen Hrs.
    destruct (ReactingSurf1D_steady_inv s xg rg rs Hrs) as [Hlen Hn].
    destruct (ReactingSurf1D_damping
                (Bdry1D.loc (ReactingSurf1D.bdry s))
                (Z.to_nat (ReactingSurf1D.m_nsp s)) xprev xg rs rdt)
      as (r & Hrun & Hrest); [lia..|].
    exists r. split; [|done].
    unfold ReactingSurf1D.eval. rewrite Hrs, Hen. done. }
  split; [|split].
  - destruct d as [i|b|b|o|b|s]; try reflexivity.
    cbn [Boundary.eval Boundary.steady_residual].
    destruct (ReactingSurf1D.steady_residual s xg rg) as [rs| |] eqn:Hrs;
      [|unfold ReactingSurf1D.eval; by rewrite Hrs..].
    destruct (ReactingSurf1D.m_enabled s) as [[|]|] eqn:Hen.
    + destruct (Hdiff s rs 0 Hen Hrs) as (r & Hr & Hlen & Hin & Hout).
      rewrite Hr. f_equal. apply list_eq. intros i.
      destruct (ReactingSurf1D_steady_inv s xg rg rs Hrs) as [Hlen' Hn].
      destruct (decide (i < Bdry1D.loc (ReactingSurf1D.bdry s) + 1
                        \/ Bdry1D.loc (ReactingSurf1D.bdry s) + 1
                           + Z.to_nat (ReactingSurf1D.m_nsp s) <= i)%nat)
        as [Hi|Hi]; [by apply Hout|].
      replace i with (Bdry1D.loc (ReactingSurf1D.bdry s) + 1
                      + (i - (Bdry1D.loc (ReactingSurf1D.bdry s) + 1)))%nat
        by lia.
      set (k := (i - (Bdry1D.loc (ReactingSurf1D.bdry s) + 1))%nat).
      destruct (lookup_lt_is_Some_2 rs
                  (Bdry1D.loc (ReactingSurf1D.bdry s) + 1 + k) ltac:(lia))
        as [rk Hrk].
      destruct (lookup_lt_is_Some_2 xg
                  (Bdry1D.loc (ReactingSurf1D.bdry s) + 1 + k) ltac:(lia))
        as [xk Hxk].
      destruct (lookup_lt_is_Some_2 xprev
                  (Bdry1D.loc (ReactingSurf1D.bdry s) + 1 + k) ltac:(lia))
        as [pk Hpk].
      rewrite (Hin k rk xk pk) by (done || lia). rewrite Hrk.
      f_equal. lra.
    + unfold ReactingSurf1D.eval. rewrite Hrs, Hen. reflexivity.
    + apply ReactingSurf1D_steady_enabled in Hrs as [en Hen'].
      by rewrite Hen in Hen'.
  - intros Halg rdt. destruct d as [i|b|b|o|b|s]; try reflexivity.
    cbn [Boundary.eval Boundary.steady_residual Boundary.differential] in *.
    unfold ReactingSurf1D.eval.
    destruct (ReactingSurf1D.steady_residual s xg rg) as [rs| |] eqn:Hrs;
      [|done..].
    cbn [obind].
    destruct (ReactingSurf1D.m_enabled s) as [[|]|] eqn:Hen; [done|done|].
    apply ReactingSurf1D_steady_enabled in Hrs as [en Hen'].
    by rewrite Hen in Hen'.
  - intros s rs rdt -> Hen Hrs loc. by apply Hdiff.
Qed.

Lemma pseudo_time_damping_witness :
  Boundary.eval (ReactingSurf Sample.surface)
    [900; 1/5; 3/10; 1/2] [1000; 1/4; 1/4; 1/2] [0; 0; 0; 0] 0
  = Boundary.steady_residual (ReactingSurf Sample.surface)
      [1000; 1/4; 1/4; 1/2] [0; 0; 0; 0].
Proof.
  apply (proj1 (pseudo_time_damping (ReactingSurf Sample.surface)
                  [900; 1/5; 3/10; 1/2] [1000; 1/4; 1/4; 1/2] [0; 0; 0; 0]
                  eq_refl eq_refl)).
Defined.

(** ** Theorems on the composition of the inlet *)












(** ** Further properties of [ReactorBase] *)

(** X1. The emptiness test is the only guard of the state accessors:
    temperature() throws on an empty state vector and returns otherwise;
    density() throws on an empty vector, reads outside the vector when it
    has one component, and returns exactly when it has at least two. *)
Theorem ReactorBase_guard_is_emptiness (r : ReactorBase.t) :
  (ReactorBase.temperature r
     = Throw (ReactorBase.state_empty_error "ReactorBase::temperature")
   <-> ReactorBase.m_state r = [])
  /\ ((exists T, ReactorBase.temperature r = Return T)
      <-> ReactorBase.m_state r <> [])
  /\ (ReactorBase.density r
        = Throw (ReactorBase.state_empty_error "ReactorBase::density")
      <-> ReactorBase.m_state r = [])
  /\ (ReactorBase.density r = Undefined
      <-> length (ReactorBase.m_state r) = 1%nat)
  /\ ((exists rho, ReactorBase.density r = Return rho)
      <-> (2 <= length (ReactorBase.m_state r))%nat).
Proof.
  unfold ReactorBase.temperature, ReactorBase.density, index.
  destruct (ReactorBase.m_state r) as [|T [|rho Y]]; simpl;
    split_and!; (split; intros H);
    first [done | lia | by eexists | by destruct H | congruence].
Qed.

(** X2. mass() takes its guard from density(): it throws the error of
    density(), named ReactorBase::density, exactly when the state is empty,
    reads outside the vector exactly when the state has one component, and
    returns exactly when it has at least two; it then returns the product
    of the volume and the density as a double, that is the rounded
    product. setInitialVolume(v) and setName(n) set the volume and the
    name, after which mass() uses v, and leave what temperature(),
    density() and massFractions() give as it was. *)
Theorem ReactorBase_mass_guard (rnd : R -> R) (r : ReactorBase.t) :
  (ReactorBase.mass rnd r
     = Throw (ReactorBase.state_empty_error "ReactorBase::density")
   <-> ReactorBase.m_state r = [])
  /\ (ReactorBase.mass rnd r = Undefined
      <-> length (ReactorBase.m_state r) = 1%nat)
  /\ ((exists m, ReactorBase.mass rnd r = Return m)
      <-> (2 <= length (ReactorBase.m_state r))%nat)
  /\ (forall rho, ReactorBase.m_state r !! 1%nat = Some rho ->
        ReactorBase.mass rnd r = Return (rnd (ReactorBase.volume r * rho)))
  /\ (forall v n,
        let r' := (ReactorBase.setName n
                     (ReactorBase.setInitialVolume v r).1.2).1.2 in
        ReactorBase.volume r' = v
        /\ ReactorBase.name r' = n
        /\ ReactorBase.temperature r' = ReactorBase.temperature r
        /\ ReactorBase.density r' = ReactorBase.density r
        /\ ReactorBase.massFractions r' = ReactorBase.massFractions r
        /\ forall rho, ReactorBase.m_state r !! 1%nat = Some rho ->
             ReactorBase.mass rnd r' = Return (rnd (v * rho))).
Proof.
  assert (Hval : forall r0 rho, ReactorBase.m_state r0 !! 1%nat = Some rho ->
            ReactorBase.mass rnd r0
            = Return (rnd (ReactorBase.volume r0 * rho))).
  { intros r0 rho Hrho. unfold ReactorBase.mass, ReactorBase.density.
    destruct (ReactorBase.m_state r0) as [|T Y]; [done|].
    cbn [ReactorBase.empty]. by rewrite (index_lookup _ _ _ Hrho). }
  split_and!.
  - unfold ReactorBase.mass, ReactorBase.density, index.
    destruct (ReactorBase.m_state r) as [|T [|rho Y]]; simpl;
      split; intros H; done.
  - unfold ReactorBase.mass, ReactorBase.density, index.
    destruct (ReactorBase.m_state r) as [|T [|rho Y]]; simpl;
      split; intros H; first [done | lia].
  - unfold ReactorBase.mass, ReactorBase.density, index.
    destruct (ReactorBase.m_state r) as [|T [|rho Y]]; simpl;
      split; intros H; first [lia | by eexists | by destruct H].
  - apply Hval.
  - intros v n r'. split_and!; try done.
    intros rho Hrho. by rewrite (Hval r' rho Hrho).
Qed.

Lemma ReactorBase_mass_guard_witness :
  ReactorBase.mass (fun p => p)
    (ReactorBase.mk 2 None 1 0 0 0 [300; 3/2; 1/4; 3/4] [] [] [] [] [] "r" None)
  = Return (1 * (3/2)).
Proof.
  apply (proj1 (proj2 (proj2 (proj2
           (ReactorBase_mass_guard (fun p => p)
              (ReactorBase.mk 2 None 1 0 0 0 [300; 3/2; 1/4; 3/4]
                 [] [] [] [] [] "r" None))))) (3/2) eq_refl).
Defined.

(** X3. The two ways to read a mass fraction agree: for a species index k
    with k + 2 below 2^64, massFraction(k) returns y exactly when
    massFractions() returns a view whose component k is y. *)
Theorem ReactorBase_massFraction_of_view (r : ReactorBase.t) (k : N) (y : R) :
  (k + 2 < ReactorBase.size_t_modulus)%N ->
  ReactorBase.massFraction r k = Return y
  <-> exists ys, ReactorBase.massFractions r = Return ys
        /\ ys !! N.to_nat k = Some y.
Proof.
  intros Hk. unfold ReactorBase.massFraction, ReactorBase.massFractions.
  rewrite size_t_add_small by done.
  replace (N.to_nat (k + 2)) with (N.to_nat k + 2)%nat by lia.
  destruct (ReactorBase.m_state r) as [|T Y] eqn:Hst;
    cbn [ReactorBase.empty].
  - split; [done|]. intros (ys & Hys & _). done.
  - rewrite index_return. split.
    + intros Hy. eexists. split; [done|].
      rewrite lookup_drop. rewrite <- Hy. f_equal. lia.
    + intros (ys & [= <-] & Hy). rewrite lookup_drop in Hy.
      replace (N.to_nat k + 2)%nat with (S (1 + N.to_nat k)) by lia.
      exact Hy.
Qed.

Lemma ReactorBase_massFraction_of_view_witness :
  ReactorBase.massFraction
    (ReactorBase.mk 2 None 1 0 0 0 [300; 3/2; 1/4; 3/4] [] [] [] [] [] "r" None)
    1 = Return (3/4).
Proof.
  apply (ReactorBase_massFraction_of_view
           (ReactorBase.mk 2 None 1 0 0 0 [300; 3/2; 1/4; 3/4]
              [] [] [] [] [] "r" None) 1 (3/4)).
  - reflexivity.
  - exists [1/4; 3/4]. split; reflexivity.
Defined.

(** X4. massFraction(k) has no upper bound on k, and k + 2 wraps around on
    size_t: on a state that is not empty, massFraction(2^64 - 2) is the
    temperature and massFraction(2^64 - 1) is the density. *)
Theorem ReactorBase_massFraction_wraps (r : ReactorBase.t) :
  ReactorBase.m_state r <> [] ->
  ReactorBase.massFraction r (ReactorBase.size_t_modulus - 2)
    = ReactorBase.temperature r
  /\ ReactorBase.massFraction r (ReactorBase.size_t_modulus - 1)
    = ReactorBase.density r.
Proof.
  intros Hne. unfold ReactorBase.massFraction, ReactorBase.temperature,
    ReactorBase.density.
  destruct (ReactorBase.m_state r) as [|T Y]; [done|].
  split; reflexivity.
Qed.

Lemma ReactorBase_massFraction_wraps_witness :
  ReactorBase.massFraction
    (ReactorBase.mk 2 None 1 0 0 0 [300; 3/2; 1/4; 3/4] [] [] [] [] [] "r" None)
    18446744073709551615 = Return (3/2).
Proof.
  apply (proj2 (ReactorBase_massFraction_wraps
                  (ReactorBase.mk 2 None 1 0 0 0 [300; 3/2; 1/4; 3/4]
                     [] [] [] [] [] "r" None)
                  ltac:(discriminate))).
Defined.

(** ** Further properties of the boundary objects *)

Lemma assign_inv (x x' : list R) (i : nat) (v : R) :
  assign x i v = Return x' <-> (i < length x)%nat /\ x' = <[i:=v]> x.
Proof.
  unfold assign. destruct (decide (i < length x)%nat) as [Hi|Hi].
  - split; [by intros [= <-]|by intros [_ ->]].
  - split; [done|]. intros [? _]. lia.
Qed.

Lemma assign_not_throw (x : list R) (i : nat) (v : R) (e : CanteraError) :
  assign x i v <> Throw e.
Proof. unfold assign. by destruct (decide (i < length x)%nat). Qed.

(** X5. setTemperature and setMdot on any boundary variant: the getter
    returns what was set and changes nothing; each setter leaves the other
    value, the stored mass fractions and the fixed coverages as they were;
    the two setters commute, a later call of a setter makes an earlier one
    void, and setting the value already stored changes nothing. *)
Theorem Boundary_temperature_mdot_setters (d : Boundary) (t m : R) :
  let dT := (Bdry1D.setTemperature t d).1.2 in
  let dM := (Bdry1D.setMdot m d).1.2 in
  Bdry1D.temperature dT = (Return t, dT, [])
  /\ Bdry1D.mdot dT = (Return (Bdry1D.m_mdot (Bdry1D.base d)), dT, [])
  /\ Bdry1D.mdot dM = (Return m, dM, [])
  /\ Bdry1D.temperature dM = (Return (Bdry1D.m_temp (Bdry1D.base d)), dM, [])
  /\ (Bdry1D.setMdot m dT).1.2 = (Bdry1D.setTemperature t dM).1.2
  /\ Boundary.mass_fractions dT = Boundary.mass_fractions d
  /\ Boundary.fixed_coverages dT = Boundary.fixed_coverages d
  /\ Boundary.mass_fractions dM = Boundary.mass_fractions d
  /\ Boundary.fixed_coverages dM = Boundary.fixed_coverages d
  /\ (forall t', (Bdry1D.setTemperature t' dT).1.2
                 = (Bdry1D.setTemperature t' d).1.2)
  /\ (forall m', (Bdry1D.setMdot m' dM).1.2 = (Bdry1D.setMdot m' d).1.2)
  /\ Bdry1D.setTemperature (Bdry1D.m_temp (Bdry1D.base d)) d
     = (Return tt, d, [])
  /\ Bdry1D.setMdot (Bdry1D.m_mdot (Bdry1D.base d)) d = (Return tt, d, []).
Proof.
  destruct d as [[b ? ? ? ? ? ?]|b|b|[b ? ? ? ?]|b|[b ? ? ? ? ? ? ?]];
    destruct b; repeat split.
Qed.

(** The single-temperature variants write the temperature to slot 0. *)
Lemma Bdry1D_getInitialSoln_inv (T : R) (x x' : list R) :
  assign x 0 T = Return x' ->
  (1 <= length x)%nat /\ length x' = length x /\ x' !! 0%nat = Some T
  /\ forall j, (1 <= j)%nat -> x' !! j = x !! j.
Proof.
  intros [Hlen ->]%assign_inv. rewrite length_insert.
  split; [lia|]. split; [done|]. split.
  - by apply list_lookup_insert_eq.
  - intros j Hj. apply list_lookup_insert_ne. lia.
Qed.

Lemma Inlet1D_getInitialSoln_inv (i : Inlet1D.t) (x x' : list R) :
  Inlet1D._getInitialSoln i x = Return x' ->
  (2 <= length x)%nat /\ length x' = length x
  /\ x' !! 0%nat = Some (Bdry1D.m_mdot (Inlet1D.bdry i))
  /\ x' !! 1%nat = Some (Bdry1D.m_temp (Inlet1D.bdry i))
  /\ forall j, (2 <= j)%nat -> x' !! j = x !! j.
Proof.
  unfold Inlet1D._getInitialSoln.
  destruct (assign x 0 _) as [x1| |] eqn:H1; cbn [obind]; [|done..].
  apply assign_inv in H1 as [Hlen1 ->].
  intros [Hlen2 ->]%assign_inv. rewrite length_insert in Hlen2.
  rewrite !length_insert. split; [lia|]. split; [done|]. split; [|split].
  - rewrite list_lookup_insert_ne by lia. by apply list_lookup_insert_eq.
  - apply list_lookup_insert_eq. by rewrite length_insert.
  - intros j Hj. rewrite !list_lookup_insert_ne by lia. done.
Qed.

Lemma ReactingSurf1D_getInitialSoln_inv (s : ReactingSurf1D.t)
    (x x' : list R) :
  ReactingSurf1D._getInitialSoln s x = Return x' ->
  exists ph, ReactingSurf1D.m_sphase s = Some ph
    /\ (1 + length (SurfPhase.getCoverages ph) <= length x)%nat
    /\ length x' = length x
    /\ x' !! 0%nat = Some (Bdry1D.m_temp (ReactingSurf1D.bdry s))
    /\ (forall k c, SurfPhase.getCoverages ph !! k = Some c ->
          x' !! (1 + k)%nat = Some c)
    /\ forall j, (1 + length (SurfPhase.getCoverages ph) <= j)%nat ->
         x' !! j = x !! j.
Proof.
  unfold ReactingSurf1D._getInitialSoln.
  destruct (assign x 0 _) as [x1| |] eqn:H1; cbn [obind]; [|done..].
  apply assign_inv in H1 as [Hlen1 ->].
  destruct (ReactingSurf1D.m_sphase s) as [ph|]; cbn [deref obind]; [|done].
  rewrite length_insert.
  destruct (decide _) as [Hlen|]; [|done]. intros [= <-].
  exists ph. split; [done|]. split; [done|].
  set (cov := SurfPhase.getCoverages ph) in *.
  set (x1 := <[0%nat := Bdry1D.m_temp (ReactingSurf1D.bdry s)]> x).
  assert (Hx1 : length x1 = length x) by apply length_insert.
  assert (Ht : length (take 1 x1) = 1%nat) by (rewrite length_take; lia).
  split; [|split; [|split]].
  - rewrite !length_app, Ht, length_drop. lia.
  - rewrite lookup_app_l by lia. rewrite lookup_take_lt by lia.
    apply list_lookup_insert_eq. lia.
  - intros k c Hc. rewrite lookup_app_r by lia. rewrite Ht.
    replace (1 + k - 1)%nat with k by lia.
    by apply lookup_app_l_Some.
  - intros j Hj. rewrite lookup_app_r by lia. rewrite Ht.
    rewrite lookup_app_r by lia. rewrite lookup_drop. unfold x1.
    rewrite list_lookup_insert_ne by lia. f_equal. lia.
Qed.

(** X6. _getInitialSoln, for every boundary variant: it never throws; it
    returns exactly when the buffer holds the slots it writes (two for an
    inlet, one for the variants with the temperature alone, one and the
    coverages for a reacting surface whose surface phase has been set by
    setKineticsMgr); the buffer keeps its length, the temperature slot holds
    the stored temperature, and every slot after the written ones is
    untouched. *)
Theorem Boundary_getInitialSoln_slots (d : Boundary) (x : list R) :
  (forall e, Boundary._getInitialSoln d x <> Throw e)
  /\ ((exists x', Boundary._getInitialSoln d x = Return x')
      <-> exists n, Boundary.written_slots d = Some n /\ (n <= length x)%nat)
  /\ (forall x', Boundary._getInitialSoln d x = Return x' ->
        length x' = length x
        /\ x' !! Boundary.temperature_slot d
           = Some (Bdry1D.m_temp (Bdry1D.base d))
        /\ forall n j, Boundary.written_slots d = Some n -> (n <= j)%nat ->
             x' !! j = x !! j).
Proof.
  assert (Hone : forall T,
            (forall e, assign x 0 T <> Throw e)
            /\ ((exists x', assign x 0 T = Return x')
                <-> exists n, Some 1%nat = Some n /\ (n <= length x)%nat)
            /\ (forall x', assign x 0 T = Return x' ->
                  length x' = length x /\ x' !! 0%nat = Some T
                  /\ forall n j, Some 1%nat = Some n -> (n <= j)%nat ->
                       x' !! j = x !! j)).
  { intros T. split; [intros e; apply assign_not_throw|]. split.
    - split.
      + intros [x' (Hlen & _)%Bdry1D_getInitialSoln_inv]. by exists 1%nat.
      + intros (n & [= <-] & Hn). eexists. apply assign_inv. by split.
    - intros x' (Hlen & Hl & H0 & Hrest)%Bdry1D_getInitialSoln_inv.
      split; [done|]. split; [done|]. intros n j [= <-]. apply Hrest. }
  destruct d as [i|b|b|o|b|s]; try apply Hone.
  - split; [|split].
    + intros e. cbn [Boundary._getInitialSoln].
      unfold Inlet1D._getInitialSoln.
      destruct (assign x 0 _) as [x1| |] eqn:H1; cbn [obind];
        [apply assign_not_throw| |done].
      by apply assign_not_throw in H1.
    + split.
      * intros [x' (Hlen & _)%Inlet1D_getInitialSoln_inv]. by exists 2%nat.
      * intros (n & [= <-] & Hn). cbn [Boundary._getInitialSoln].
        unfold Inlet1D._getInitialSoln.
        rewrite assign_return by lia. cbn [obind].
        rewrite assign_return by (rewrite length_insert; lia). by eexists.
    + intros x' (Hlen & Hl & H0 & H1 & Hrest)%Inlet1D_getInitialSoln_inv.
      split; [done|]. split; [done|]. intros n j [= <-]. apply Hrest.
  - split; [|split].
    + intros e. cbn [Boundary._getInitialSoln].
      unfold ReactingSurf1D._getInitialSoln.
      destruct (assign x 0 _) as [x1| |] eqn:H1; cbn [obind]; [| |done].
      * destruct (ReactingSurf1D.m_sphase s); cbn [deref obind]; [|done].
        by destruct (decide _).
      * by apply assign_not_throw in H1.
    + cbn [Boundary.written_slots]. split.
      * intros [x' (ph & Hph & Hlen & _)%ReactingSurf1D_getInitialSoln_inv].
        rewrite Hph. by eexists.
      * intros (n & Hn & Hlen). cbn [Boundary._getInitialSoln].
        unfold ReactingSurf1D._getInitialSoln.
        destruct (ReactingSurf1D.m_sphase s) as [ph|]; [|done].
        injection Hn as <-.
        rewrite assign_return by lia. cbn [deref obind].
        rewrite length_insert. rewrite decide_True by done. by eexists.
    + intros x' (ph & Hph & Hlen & Hl & H0 & Hcov & Hrest)
        %ReactingSurf1D_getInitialSoln_inv.
      split; [done|]. split; [done|]. intros n j Hn.
      cbn [Boundary.written_slots] in Hn. rewrite Hph in Hn.
      injection Hn as <-. apply Hrest.
Qed.

Lemma Boundary_getInitialSoln_slots_witness :
  exists x', Boundary._getInitialSoln (Inlet Sample.inlet) [0; 0; 7]
             = Return x'.
Proof.
  apply (proj1 (proj2 (Boundary_getInitialSoln_slots (Inlet Sample.inlet)
                         [0; 0; 7]))).
  exists 2%nat. split; [reflexivity|]. simpl. lia.
Defined.

(** X7. The initial guess follows the setters: after setTemperature(t) and
    setMdot(m), what _getInitialSoln returns holds t in the temperature
    slot, for an inlet m in slot 0, and for a reacting surface the
    coverages of its surface phase in the slots after the temperature. *)
Theorem initial_guess_follows_setters (d : Boundary) (t m : R)
    (x x' : list R) :
  Boundary._getInitialSoln
    (Bdry1D.setMdot m (Bdry1D.setTemperature t d).1.2).1.2 x = Return x' ->
  x' !! Boundary.temperature_slot d = Some t
  /\ (forall i, d = Inlet i -> x' !! 0%nat = Some m)
  /\ (forall s ph k c, d = ReactingSurf s ->
        ReactingSurf1D.m_sphase s = Some ph ->
        SurfPhase.getCoverages ph !! k = Some c ->
        x' !! (1 + k)%nat = Some c).
Proof.
  destruct d as [i|b|b|o|b|s]; cbn; intros Hx.
  - apply Inlet1D_getInitialSoln_inv in Hx as (_ & _ & H0 & H1 & _).
    split; [done|]. split; [by intros ? _|]. by intros ? ? ? ? [=].
  - apply Bdry1D_getInitialSoln_inv in Hx as (_ & _ & H0 & _).
    split; [done|]. split; by intros.
  - apply Bdry1D_getInitialSoln_inv in Hx as (_ & _ & H0 & _).
    split; [done|]. split; by intros.
  - apply Bdry1D_getInitialSoln_inv in Hx as (_ & _ & H0 & _).
    split; [done|]. split; by intros.
  - apply Bdry1D_getInitialSoln_inv in Hx as (_ & _ & H0 & _).
    split; [done|]. split; by intros.
  - apply ReactingSurf1D_getInitialSoln_inv in Hx
      as (ph & Hph & _ & _ & H0 & Hcov & _).
    split; [done|]. split; [by intros|].
    intros s' ph' k c [= <-] Hph' Hc. cbn in Hph.
    rewrite Hph' in Hph. injection Hph as <-. by apply Hcov.
Qed.

Lemma initial_guess_follows_setters_witness :
  [1/2; 400; 7] !! Boundary.temperature_slot (Inlet Sample.inlet) = Some 400
  /\ (forall i, Inlet Sample.inlet = Inlet i ->
        [1/2; 400; 7] !! 0%nat = Some (1/2)).
Proof.
  destruct (initial_guess_follows_setters (Inlet Sample.inlet) 400 (1/2)
              [0; 0; 7] [1/2; 400; 7] eq_refl) as (Ht & Hm & _).
  exact (conj Ht Hm).
Defined.

(** What the copy of [_finalize] gives. *)
Lemma copy_range_inv (x out c : list R) (first : nat) (n : Z) :
  copy_range x first n out = Return c
  <-> (0 <= n)%Z /\ (first + Z.to_nat n <= length x)%nat
      /\ (Z.to_nat n <= length out)%nat
      /\ c = take (Z.to_nat n) (drop first x) ++ drop (Z.to_nat n) out.
Proof.
  unfold copy_range. repeat case_decide; split;
    first [by intros [= <-] | intros (? & ? & ? & ->); done || lia | done].
Qed.

Lemma copy_range_not_throw (x out : list R) (first : nat) (n : Z)
    (e : CanteraError) :
  copy_range x first n out <> Throw e.
Proof. unfold copy_range. by repeat case_decide. Qed.

Lemma ReactingSurf1D_set_fixed_cov_id (s : ReactingSurf1D.t) :
  ReactingSurf1D.set_m_fixed_cov (ReactingSurf1D.m_fixed_cov s) s = s.
Proof. by destruct s. Qed.

(** X8. ReactingSurf1D::_finalize(x) returns exactly when the species count
    is not negative, x holds the temperature and nsp coverages, and
    m_fixed_cov holds nsp components; it then overwrites the first nsp
    components of m_fixed_cov with x[1..nsp], keeps the length of
    m_fixed_cov and its later components, changes no other member and
    emits nothing. In every other case the copy leaves its buffers and the
    call has no defined outcome; nothing is said of the object then. *)
Theorem ReactingSurf1D_finalize_effect (s : ReactingSurf1D.t) (x : list R) :
  let n := Z.to_nat (ReactingSurf1D.m_nsp s) in
  let fits := (0 <= ReactingSurf1D.m_nsp s)%Z /\ (1 + n <= length x)%nat
              /\ (n <= length (ReactingSurf1D.m_fixed_cov s))%nat in
  (fits ->
   exists s',
     ReactingSurf1D._finalize x s = (Return tt, s', [])
     /\ length (ReactingSurf1D.m_fixed_cov s')
        = length (ReactingSurf1D.m_fixed_cov s)
     /\ (forall k, (k < n)%nat ->
           ReactingSurf1D.m_fixed_cov s' !! k = x !! (1 + k)%nat)
     /\ (forall k, (n <= k)%nat ->
           ReactingSurf1D.m_fixed_cov s' !! k
           = ReactingSurf1D.m_fixed_cov s !! k)
     /\ ReactingSurf1D.set_m_fixed_cov (ReactingSurf1D.m_fixed_cov s) s' = s)
  /\ (~ fits -> (ReactingSurf1D._finalize x s).1.1 = Undefined).
Proof.
  intros n fits. split.
  - intros (Hnsp & Hx & Hfix).
    rewrite ReactingSurf1D_finalize_return by done. fold n.
    eexists. split; [reflexivity|]. cbn [ReactingSurf1D.m_fixed_cov
      ReactingSurf1D.set_m_fixed_cov].
    assert (Ht : length (take n (drop 1 x)) = n).
    { rewrite length_take, length_drop. lia. }
    split; [|split; [|split]].
    + rewrite length_app, Ht, length_drop. lia.
    + intros k Hk. rewrite lookup_app_l by lia.
      rewrite lookup_take_lt by done. by rewrite lookup_drop.
    + intros k Hk. rewrite lookup_app_r by lia. rewrite Ht, lookup_drop.
      f_equal. lia.
    + by destruct s.
  - intros Hfits. unfold ReactingSurf1D._finalize.
    destruct (copy_range x 1 _ _) as [c| |] eqn:Hc.
    + apply copy_range_inv in Hc as (? & ? & ? & _). by destruct Hfits.
    + by apply copy_range_not_throw in Hc.
    + reflexivity.
Qed.

Lemma ReactingSurf1D_finalize_effect_witness :
  exists s',
    ReactingSurf1D._finalize [1000; 1/5; 3/10; 1/2] Sample.surface
      = (Return tt, s', [])
    /\ length (ReactingSurf1D.m_fixed_cov s') = 3%nat.
Proof.
  destruct (proj1 (ReactingSurf1D_finalize_effect Sample.surface
                     [1000; 1/5; 3/10; 1/2]))
    as (s' & Hcall & Hlen & _).
  - simpl. lia.
  - exists s'. exact (conj Hcall Hlen).
Defined.

(** X9. _finalize is idempotent and the last call wins: when _finalize(x)
    has returned, _finalize(x) again leaves the object as it is, and
    _finalize(y) for a solution y of sufficient length gives the object
    that _finalize(y) alone would have given. *)
Theorem ReactingSurf1D_finalize_last_wins (s s1 : ReactingSurf1D.t)
    (x y : list R) :
  ReactingSurf1D._finalize x s = (Return tt, s1, []) ->
  ReactingSurf1D._finalize x s1 = (Return tt, s1, [])
  /\ ((1 + Z.to_nat (ReactingSurf1D.m_nsp s) <= length y)%nat ->
      ReactingSurf1D._finalize y s1 = ReactingSurf1D._finalize y s).
Proof.
  intros Hx. unfold ReactingSurf1D._finalize in Hx.
  destruct (copy_range x 1 _ _) as [c| |] eqn:Hc; [|done..].
  rewrite bind_lift_return in Hx. injection Hx as <-.
  apply copy_range_inv in Hc as (Hnsp & Hlenx & Hfix & ->).
  set (n := Z.to_nat (ReactingSurf1D.m_nsp s)) in *.
  assert (Ht : forall z : list R, (1 + n <= length z)%nat ->
            length (take n (drop 1 z)) = n).
  { intros z Hz. rewrite length_take, length_drop. lia. }
  assert (Hdrop : forall z : list R, (1 + n <= length z)%nat ->
            drop n (take n (drop 1 z)
                    ++ drop n (ReactingSurf1D.m_fixed_cov s))
            = drop n (ReactingSurf1D.m_fixed_cov s)).
  { intros z Hz. rewrite drop_app_length'; [done|]. symmetry. by apply Ht. }
  assert (Hagain : forall z : list R, (1 + n <= length z)%nat ->
            ReactingSurf1D._finalize z
              (ReactingSurf1D.set_m_fixed_cov
                 (take n (drop 1 x) ++ drop n (ReactingSurf1D.m_fixed_cov s)) s)
            = ReactingSurf1D._finalize z s).
  { intros z Hz.
    rewrite (ReactingSurf1D_finalize_return s) by (done || lia).
    rewrite ReactingSurf1D_finalize_return.
    - cbn [ReactingSurf1D.m_nsp ReactingSurf1D.set_m_fixed_cov
           ReactingSurf1D.m_fixed_cov]. fold n.
      rewrite (Hdrop x) by lia. by destruct s.
    - done.
    - cbn. fold n. lia.
    - cbn. fold n. rewrite length_app, (Ht x), length_drop by lia. lia. }
  split; [|intros Hy; by apply Hagain].
  rewrite Hagain by lia.
  by rewrite ReactingSurf1D_finalize_return by (done || lia).
Qed.

Lemma ReactingSurf1D_finalize_last_wins_witness :
  ReactingSurf1D._finalize [1000; 1/5; 3/10; 1/2]
    (ReactingSurf1D.set_m_fixed_cov [1/5; 3/10; 1/2] Sample.surface)
  = (Return tt,
     ReactingSurf1D.set_m_fixed_cov [1/5; 3/10; 1/2] Sample.surface, []).
Proof.
  apply (proj1 (ReactingSurf1D_finalize_last_wins Sample.surface
                  (ReactingSurf1D.set_m_fixed_cov [1/5; 3/10; 1/2]
                     Sample.surface)
                  [1000; 1/5; 3/10; 1/2] [] eq_refl)).
Defined.

(** X10. Finalizing the initial guess captures the coverages of the surface
    phase: when the species count is the number of coverages of the phase
    and m_fixed_cov holds that many components, _finalize applied to what
    _getInitialSoln has written returns, and the first nsp components of
    m_fixed_cov are then the coverages of the phase. *)
Theorem ReactingSurf1D_finalize_initial_guess (s : ReactingSurf1D.t)
    (ph : SurfPhase.t) (x x' : list R) :
  ReactingSurf1D.m_sphase s = Some ph ->
  ReactingSurf1D.m_nsp s = Z.of_nat (length (SurfPhase.getCoverages ph)) ->
  (length (SurfPhase.getCoverages ph)
   <= length (ReactingSurf1D.m_fixed_cov s))%nat ->
  ReactingSurf1D._getInitialSoln s x = Return x' ->
  exists s',
    ReactingSurf1D._finalize x' s = (Return tt, s', [])
    /\ take (length (SurfPhase.getCoverages ph))
         (ReactingSurf1D.m_fixed_cov s')
       = SurfPhase.getCoverages ph.
Proof.
  intros Hph Hnsp Hfix Hx.
  apply ReactingSurf1D_getInitialSoln_inv in Hx
    as (ph' & Hph' & Hlen & Hlen' & _ & Hcov & _).
  rewrite Hph in Hph'. injection Hph' as <-.
  set (cov := SurfPhase.getCoverages ph) in *.
  assert (Hn : Z.to_nat (ReactingSurf1D.m_nsp s) = length cov)
    by (rewrite Hnsp; apply Nat2Z.id).
  rewrite ReactingSurf1D_finalize_return by (rewrite ?Hn; lia).
  eexists. split; [reflexivity|].
  cbn [ReactingSurf1D.m_fixed_cov ReactingSurf1D.set_m_fixed_cov].
  rewrite Hn.
  assert (Ht : length (take (length cov) (drop 1 x')) = length cov).
  { rewrite length_take, length_drop. lia. }
  rewrite take_app_length'; [|done].
  apply list_eq. intros k.
  destruct (decide (k < length cov)%nat) as [Hk|Hk].
  - rewrite lookup_take_lt by done. rewrite lookup_drop.
    destruct (lookup_lt_is_Some_2 cov k Hk) as [c Hc].
    rewrite Hc. by apply Hcov.
  - rewrite lookup_take_ge by lia. symmetry. apply lookup_ge_None. lia.
Qed.

Lemma ReactingSurf1D_finalize_initial_guess_witness :
  exists s',
    ReactingSurf1D._finalize [300; 1/5; 3/10; 1/2] Sample.surface
      = (Return tt, s', [])
    /\ take 3 (ReactingSurf1D.m_fixed_cov s') = [1/5; 3/10; 1/2].
Proof.
  apply (ReactingSurf1D_finalize_initial_guess Sample.surface Sample.phase
           [0; 0; 0; 0] [300; 1/5; 3/10; 1/2]).
  - reflexivity.
  - reflexivity.
  - simpl. lia.
  - reflexivity.
Defined.




Lemma setKineticsMgr_return (s : ReactingSurf1D.t)
    (kin : InterfaceKinetics.t) (ph : SurfPhase.t) :
  InterfaceKinetics.thermo kin (InterfaceKinetics.surfacePhaseIndex kin)
    = Return ph ->
  ReactingSurf1D.setKineticsMgr kin s
  = (Return tt,
     ReactingSurf1D.set_m_enabled (Some true)
       (ReactingSurf1D.set_m_nsp (SurfPhase.nSpecies ph)
          (ReactingSurf1D.set_m_sphase (Some ph)
             (ReactingSurf1D.set_m_surfindex
                (InterfaceKinetics.surfacePhaseIndex kin)
                (ReactingSurf1D.set_m_kin (Some kin) s)))), []).
Proof.
  intros Hph. unfold ReactingSurf1D.setKineticsMgr. rewrite !bind_modify.
  unfold bind at 1. cbn [ret].
  cbn [ReactingSurf1D.m_surfindex ReactingSurf1D.set_m_surfindex
       ReactingSurf1D.set_m_kin].
  rewrite Hph. by rewrite !bind_modify.
Qed.

(** X13. The order of setKineticsMgr and enableCoverageEquations matters.
    For an evaluator whose surface phase index names one of its phases,
    enableCoverageEquations(docov) after setKineticsMgr(kin) leaves the flag
    at docov and keeps the species count and the surface phase that
    setKineticsMgr has set; the two objects reached in the two orders differ
    in the flag alone, and they are equal exactly when docov is true.
    setKineticsMgr(kin) a second time changes nothing. *)
Theorem setKineticsMgr_order (s : ReactingSurf1D.t)
    (kin : InterfaceKinetics.t) (ph : SurfPhase.t) (docov : bool) :
  InterfaceKinetics.thermo kin (InterfaceKinetics.surfacePhaseIndex kin)
    = Return ph ->
  let set_first :=
    (ReactingSurf1D.enableCoverageEquations docov
       (ReactingSurf1D.setKineticsMgr kin s).1.2).1.2 in
  let set_last :=
    (ReactingSurf1D.setKineticsMgr kin
       (ReactingSurf1D.enableCoverageEquations docov s).1.2).1.2 in
  ReactingSurf1D.m_enabled set_first = Some docov
  /\ ReactingSurf1D.m_nsp set_first = SurfPhase.nSpecies ph
  /\ ReactingSurf1D.m_sphase set_first = Some ph
  /\ ReactingSurf1D.set_m_enabled (Some true) set_first = set_last
  /\ (set_first = set_last <-> docov = true)
  /\ ReactingSurf1D.setKineticsMgr kin
       (ReactingSurf1D.setKineticsMgr kin s).1.2
     = ReactingSurf1D.setKineticsMgr kin s.
Proof.
  intros Hph set_first set_last. subst set_first set_last.
  rewrite !(setKineticsMgr_return _ kin ph Hph).
  cbn. split; [done|]. split; [done|]. split; [done|]. split; [done|].
  split; [|done]. by destruct docov.
Qed.

Lemma setKineticsMgr_order_witness :
  ReactingSurf1D.m_enabled
    (ReactingSurf1D.enableCoverageEquations false
       (ReactingSurf1D.setKineticsMgr Sample.kinetics Sample.surface).1.2).1.2
  = Some false.
Proof.
  apply (setKineticsMgr_order Sample.surface Sample.kinetics Sample.phase
           false eq_refl).
Defined.

(** X14. setSpreadRate(V0): spreadRate() then returns V0; the call always
    asks for a new Jacobian, also when V0 is the value already stored; the
    Bdry1D part (temperature, mass flow rate), the mass fractions, the
    composition string and the flow are untouched; a later call makes an
    earlier one void. spreadRate() itself changes nothing. *)
Theorem Inlet1D_setSpreadRate_effect (i : Inlet1D.t) (V0 : R) :
  let i' := (Inlet1D.setSpreadRate V0 i).1.2 in
  Inlet1D.spreadRate i' = (Return V0, i', [])
  /\ (Inlet1D.setSpreadRate V0 i).2 = [NeedJacUpdate]
  /\ Inlet1D.setSpreadRate (Inlet1D.m_V0 i) i
     = (Return tt, i, [NeedJacUpdate])
  /\ Inlet1D.bdry i' = Inlet1D.bdry i
  /\ Inlet1D.m_yin i' = Inlet1D.m_yin i
  /\ Inlet1D.m_xstr i' = Inlet1D.m_xstr i
  /\ Inlet1D.m_flow i' = Inlet1D.m_flow i
  /\ (forall V1, (Inlet1D.setSpreadRate V1 i').1.2
                 = (Inlet1D.setSpreadRate V1 i).1.2)
  /\ (forall x, Inlet1D._getInitialSoln i' x = Inlet1D._getInitialSoln i x).
Proof. destruct i. repeat split. Qed.

(** X15. massFraction(k) through the virtual call never changes the object
    and emits nothing. On an inlet or an outlet with reservoir it never
    throws, and it returns y exactly when k is not negative and the stored
    array holds y at k; any other k is a read outside the array. On the
    four other variants, the reacting surface among them, it throws the
    error of the base class. *)
Theorem Boundary_massFraction_outcomes (d : Boundary) (k : Z) :
  (Boundary.massFraction k d).1.2 = d
  /\ (Boundary.massFraction k d).2 = []
  /\ (forall y stored,
        (exists i, d = Inlet i /\ stored = Inlet1D.m_yin i)
        \/ (exists o, d = OutletRes o /\ stored = OutletRes1D.m_yres o) ->
        ((Boundary.massFraction k d).1.1 = Return y
         <-> (0 <= k)%Z /\ stored !! Z.to_nat k = Some y)
        /\ ((Boundary.massFraction k d).1.1 = Undefined
            <-> (k < 0)%Z \/ (Z.of_nat (length stored) <= k)%Z))
  /\ ((forall i, d <> Inlet i) -> (forall o, d <> OutletRes o) ->
      (Boundary.massFraction k d).1.1
      = Throw (Bdry1D.base_class_error "massFraction")).
Proof.
  assert (Hrd : forall (stored : list R) y,
            ((if decide (0 <= k)%Z then index stored (Z.to_nat k)
              else Undefined) = Return y
             <-> (0 <= k)%Z /\ stored !! Z.to_nat k = Some y)
            /\ ((if decide (0 <= k)%Z then index stored (Z.to_nat k)
                 else Undefined) = Undefined
                <-> (k < 0)%Z \/ (Z.of_nat (length stored) <= k)%Z)).
  { intros stored y. destruct (decide (0 <= k)%Z) as [Hk|Hk].
    - split; [rewrite index_return; split; [by intros ?|by intros [_ ?]]|].
      unfold index.
      destruct (stored !! Z.to_nat k) as [y'|] eqn:Hy.
      + apply lookup_lt_Some in Hy. split; [done|lia].
      + apply lookup_ge_None in Hy. split; [lia|done].
    - split; [split; [done|intros [? _]; lia]|]. split; [lia|done]. }
  split; [by destruct d|]. split; [by destruct d|]. split.
  - intros y stored [(i & -> & ->) | (o & -> & ->)]; apply Hrd.
  - intros Hi Ho. destruct d as [i|b|b|o|b|s]; try done.
    + by destruct (Hi i).
    + by destruct (Ho o).
Qed.

Lemma Boundary_massFraction_outcomes_witness :
  (Boundary.massFraction 0 (ReactingSurf Sample.surface)).1.1
  = Throw (mkCanteraError "Bdry1D::massFraction"
             "attempt to call base class method massFraction").
Proof.
  apply (Boundary_massFraction_outcomes (ReactingSurf Sample.surface) 0).
  - intros i. discriminate.
  - intros o. discriminate.
Defined.

Lemma ReactingSurf1D_getInitialSoln_return (s : ReactingSurf1D.t)
    (ph : SurfPhase.t) (x : list R) :
  ReactingSurf1D.m_sphase s = Some ph ->
  (1 + length (SurfPhase.getCoverages ph) <= length x)%nat ->
  ReactingSurf1D._getInitialSoln s x
  = Return
      (take 1 (<[0%nat := Bdry1D.m_temp (ReactingSurf1D.bdry s)]> x)
       ++ SurfPhase.getCoverages ph
       ++ drop (1 + length (SurfPhase.getCoverages ph))
            (<[0%nat := Bdry1D.m_temp (ReactingSurf1D.bdry s)]> x)).
Proof.
  intros Hph Hlen. unfold ReactingSurf1D._getInitialSoln.
  rewrite assign_return by lia. rewrite Hph. cbn [deref obind].
  rewrite length_insert. by rewrite decide_True.
Qed.

(** X16. Before init: a newly constructed inlet or outlet with reservoir
    stores no mass fraction, so massFraction(k) reads outside the array for
    every k, and the spreading rate of the inlet is 0. A newly constructed
    reacting surface has no surface phase: _getInitialSoln has no defined
    outcome on any buffer until setKineticsMgr has been called, and returns
    after it on a buffer that holds the temperature and the coverages. The
    constructor of the reacting surface sets the type tag of the
    non-reacting surface. *)
Theorem boundaries_before_init (b : Bdry1D.t) (ilr k : Z) (x : list R) :
  Inlet1D.massFraction k (Inlet1D.create b ilr)
    = (Undefined, Inlet1D.create b ilr, [])
  /\ OutletRes1D.massFraction k (OutletRes1D.create b)
    = (Undefined, OutletRes1D.create b, [])
  /\ Inlet1D.spreadRate (Inlet1D.create b ilr)
    = (Return 0, Inlet1D.create b ilr, [])
  /\ ReactingSurf1D._getInitialSoln (ReactingSurf1D.create b) x = Undefined
  /\ (forall kin ph,
        InterfaceKinetics.thermo kin (InterfaceKinetics.surfacePhaseIndex kin)
          = Return ph ->
        (1 + length (SurfPhase.getCoverages ph) <= length x)%nat ->
        exists x',
          ReactingSurf1D._getInitialSoln
            (ReactingSurf1D.setKineticsMgr kin
               (ReactingSurf1D.create b)).1.2 x = Return x'
          /\ x' !! 0%nat = Some (Bdry1D.m_temp b))
  /\ Domain1D.m_type (Bdry1D.domain
                        (ReactingSurf1D.bdry (ReactingSurf1D.create b)))
     = Domain1D.m_type (Bdry1D.domain (Surf1D.create b)).
Proof.
  split; [|split; [|split; [|split; [|split]]]].
  - unfold Inlet1D.massFraction, lift. cbn [Inlet1D.create Inlet1D.m_yin].
    by destruct (decide (0 <= k)%Z).
  - unfold OutletRes1D.massFraction, lift.
    cbn [OutletRes1D.create OutletRes1D.m_yres].
    by destruct (decide (0 <= k)%Z).
  - reflexivity.
  - unfold ReactingSurf1D._getInitialSoln.
    destruct (assign x 0 _) as [x1| |] eqn:H1;
      [reflexivity|by apply assign_not_throw in H1|reflexivity].
  - intros kin ph Hph Hlen.
    rewrite (setKineticsMgr_return _ kin ph Hph).
    eexists. split.
    { apply ReactingSurf1D_getInitialSoln_return with (ph := ph);
        [reflexivity|exact Hlen]. }
    cbn [ReactingSurf1D.bdry ReactingSurf1D.set_m_enabled
         ReactingSurf1D.set_m_nsp ReactingSurf1D.set_m_sphase
         ReactingSurf1D.set_m_surfindex ReactingSurf1D.set_m_kin
         ReactingSurf1D.create Bdry1D.m_temp Bdry1D.set_domain].
    rewrite lookup_app_l by (rewrite length_take, length_insert; lia).
    rewrite lookup_take_lt by lia. apply list_lookup_insert_eq. lia.
  - reflexivity.
Qed.

Lemma boundaries_before_init_witness :
  exists x',
    ReactingSurf1D._getInitialSoln
      (ReactingSurf1D.setKineticsMgr Sample.kinetics
         (ReactingSurf1D.create Sample.bdry)).1.2 [0; 0; 0; 0] = Return x'
    /\ x' !! 0%nat = Some (Bdry1D.m_temp Sample.bdry).
Proof.
  apply (proj1 (proj2 (proj2 (proj2 (proj2
           (boundaries_before_init Sample.bdry 0 0 [0; 0; 0; 0])))))
           Sample.kinetics Sample.phase eq_refl).
  simpl. lia.
Defined.
